(** * proxTV: the Python front end of the Total Variation proximity solvers

    A shallow embedding of [prox_tv/__init__.py] (the entry points
    [tv1_1d] ... [tvgen], [_call], [force_float_scalar],
    [force_float_matrix]) and of the foreign signatures declared in
    [prox_tv/prox_tv_build.py].

    Python objects live in a store of numpy arrays addressed by reference;
    the entry points are programs of a state-and-exception monad over that
    store, and every foreign call is appended to a log. *)

From Stdlib Require Import ZArith List String Bool Lia.
From Stdlib Require Import SpecFloat.
From stdpp Require Import base list strings.

Open Scope string_scope.
Open Scope Z_scope.
Open Scope list_scope.

(** ** Scalars *)

(** A Python [float] is an IEEE binary64 number. *)
Definition float : Type := spec_float.
Definition prec : Z := 53.
Definition emax : Z := 1024.

Definition F0 : float := S754_zero false.

(** Round-to-nearest-even conversion of an integer, as [float(int)] and
    [ndarray.astype('float')] perform it. *)
Definition float_of_Z (z : Z) : float := binary_normalize prec emax z 0 false.

Definition F1 : float := float_of_Z 1.

(** The default [sigma=0.05] of [tv1_1d] and [tv1w_1d]. *)
Definition sigma_default : float := S754_finite false 7205759403792794 (-57).

(** The scalars a caller hands over as a weight, a norm or a tolerance. *)
Inductive scalar : Type :=
| SInt (z : Z)
| SFloat (f : float)
| SBool (b : bool).

(** [s >= 0] *)
Definition scalar_ge0 (s : scalar) : bool :=
  match s with
  | SInt z => 0 <=? z
  | SFloat f => SFleb F0 f
  | SBool _ => true
  end.

(** [s >= 1] *)
Definition scalar_ge1 (s : scalar) : bool :=
  match s with
  | SInt z => 1 <=? z
  | SFloat f => SFleb F1 f
  | SBool b => b
  end.

(** [s < 0] *)
Definition scalar_lt0 (s : scalar) : bool :=
  match s with
  | SInt z => z <? 0
  | SFloat f => SFltb f F0
  | SBool _ => false
  end.

(** [s < 1] *)
Definition scalar_lt1 (s : scalar) : bool :=
  match s with
  | SInt z => z <? 1
  | SFloat f => SFltb f F1
  | SBool b => negb b
  end.

(** [s == 0] *)
Definition scalar_is0 (s : scalar) : bool :=
  match s with
  | SInt z => z =? 0
  | SFloat f => SFeqb f F0
  | SBool b => negb b
  end.

(** ** numpy arrays *)

(** The element buffer of a contiguous array, tagged with its dtype. *)
Inductive buffer : Type :=
| F64 (l : list float)
| I64 (l : list Z).

Inductive layout : Type := C_order | F_order.

Record ndarray : Type := mk_ndarray {
  shape : list Z;
  order : layout;
  data : buffer
}.

Definition is_float64 (a : ndarray) : bool :=
  match data a with F64 _ => true | I64 _ => false end.

Definition buffer_length (b : buffer) : nat :=
  match b with F64 l => length l | I64 l => length l end.

(** [np.size] *)
Definition size_of (sh : list Z) : Z := fold_right Z.mul 1 sh.

(** The buffer read as doubles after conversion to float64. *)
Definition to_float64 (b : buffer) : list float :=
  match b with
  | F64 l => l
  | I64 l => map float_of_Z l
  end.

(** An array allocated in C order is Fortran contiguous too when it is
    empty or has at most one axis of extent other than 1. *)
Definition both_contiguous (sh : list Z) : bool :=
  existsb (Z.eqb 0) sh
  || Nat.leb (length (List.filter (fun d : Z => negb (Z.eqb d 1)) sh)) 1.

Definition f_contiguous (a : ndarray) : bool :=
  match order a with
  | F_order => true
  | C_order => both_contiguous (shape a)
  end.

(** Column-major re-layout of a row-major buffer. *)
Fixpoint unravel_F (sh : list Z) (k : Z) : list Z :=
  match sh with
  | [] => []
  | d :: ds => (k mod d) :: unravel_F ds (k / d)
  end.

Fixpoint ravel_C (sh idx : list Z) (acc : Z) : Z :=
  match sh, idx with
  | d :: ds, i :: rest => ravel_C ds rest (acc * d + i)
  | _, _ => acc
  end.

Definition c_offset (sh : list Z) (k : nat) : nat :=
  Z.to_nat (ravel_C sh (unravel_F sh (Z.of_nat k)) 0).

Definition relayout_F {A : Type} (dflt : A) (sh : list Z) (mem : list A) : list A :=
  map (fun k => nth (c_offset sh k) mem dflt) (seq 0 (length mem)).

(** The entries of an array as doubles in column-major order: what a
    float64 Fortran-ordered copy holds. *)
Definition fortran_entries (a : ndarray) : list float :=
  if f_contiguous a then to_float64 (data a)
  else relayout_F F0 (shape a) (to_float64 (data a)).

(** [x.astype('float')]: a float64 copy that keeps the layout. *)
Definition astype_float (a : ndarray) : ndarray :=
  {| shape := shape a; order := order a; data := F64 (to_float64 (data a)) |}.

(** The copy [np.asfortranarray(x, dtype='float64')] makes when [x] is
    not already a Fortran-contiguous float64 array. *)
Definition fortran_copy (a : ndarray) : ndarray :=
  {| shape := shape a; order := F_order; data := F64 (fortran_entries a) |}.

(** [np.zeros(shape, order=...)] *)
Definition zeros (sh : list Z) (o : layout) : ndarray :=
  {| shape := sh; order := o; data := F64 (repeat F0 (Z.to_nat (size_of sh))) |}.

(** The maximum number of returned info parameters. *)
Definition _N_INFO : Z := 3.

(** ** The foreign library *)

(** The functions declared by [ffi.cdef] in [prox_tv_build.py]. *)
Inductive lib_fn : Type :=
| TV1D_denoise | dp
| tautString_TV1 | PN_TV1
| PN_TV1_Weighted | tautString_TV1_Weighted
| more_TV2 | PG_TV2 | morePG_TV2
| DR2L1W_TV
| PD2_TV | DR2_TV | CondatChambollePock2_TV | Yang2_TV
| PD_TV
| GP_TVp | OGP_TVp | FISTA_TVp | FW_TVp | GPFW_TVp.

Abbreviation loc := nat (only parsing).

(** A Python value passed to [_call]. *)
Inductive pyval : Type :=
| VNum (s : scalar)
| VSeq (l : list scalar)
| VArr (p : loc)
| VNull.

(** What reaches the foreign function: [_call] replaces every ndarray by
    a [double *] to its buffer and leaves the other arguments alone. *)
Inductive cdata : Type :=
| CNum (s : scalar)
| CSeq (l : list scalar)
| CPtr (p : loc)
| CNull.

Record native_call : Type := mk_call {
  nc_fn : lib_fn;
  nc_args : list cdata
}.

(** Where the declared signature of each foreign function has its input
    signal, its weights, its output buffer, its info buffer and its
    iteration cap. *)
Record signature : Type := mk_sig {
  sig_in : nat;
  sig_w : list nat;
  sig_out : nat;
  sig_info : option nat;
  sig_maxit : option nat
}.

Definition lib_sig (fn : lib_fn) : signature :=
  match fn with
  | TV1D_denoise => mk_sig 0 [3%nat] 1 None None
  | dp => mk_sig 1 [2%nat] 3 None None
  | tautString_TV1 => mk_sig 0 [1%nat] 2 None None
  | PN_TV1 => mk_sig 0 [1%nat] 2 (Some 3%nat) None
  | PN_TV1_Weighted => mk_sig 0 [1%nat] 2 (Some 3%nat) None
  | tautString_TV1_Weighted => mk_sig 0 [1%nat] 2 None None
  | more_TV2 | PG_TV2 | morePG_TV2 => mk_sig 0 [1%nat] 2 (Some 3%nat) None
  | DR2L1W_TV => mk_sig 2 [3%nat; 4%nat] 5 (Some 8%nat) (Some 7%nat)
  | PD2_TV | PD_TV => mk_sig 0 [1%nat] 4 (Some 5%nat) (Some 10%nat)
  | DR2_TV => mk_sig 2 [3%nat; 4%nat] 7 (Some 10%nat) (Some 9%nat)
  | CondatChambollePock2_TV => mk_sig 2 [3%nat] 4 (Some 7%nat) (Some 6%nat)
  | Yang2_TV => mk_sig 2 [3%nat] 4 (Some 6%nat) (Some 5%nat)
  | GP_TVp | OGP_TVp | FISTA_TVp | FW_TVp | GPFW_TVp =>
      mk_sig 0 [1%nat] 2 (Some 3%nat) None
  end.

(** ** The store and the monad *)

Record state : Type := mk_state {
  heap : list ndarray;
  calls : list native_call
}.

(** The Python exceptions the front end can raise. [OutsideModel] is not
    one of them: it marks the two places where the store cannot follow
    Python, a reference to no object and a view into an array. A caller
    holds no such reference, and the only indexing of an array sits in the
    branch of [tvgen] that never runs. *)
Inductive exn : Type :=
| AssertionError
| AttributeError (name : string)
| IndexError
| TypeError
| ValueError
| OverflowError
| KeyError
| OutsideModel.

Inductive result (A : Type) : Type :=
| Ok (a : A)
| Raise (e : exn).
Arguments Ok {A} a.
Arguments Raise {A} e.

Definition M (A : Type) : Type := state -> result A * state.

Definition ret {A : Type} (a : A) : M A := fun st => (Ok a, st).

Definition raise {A : Type} (e : exn) : M A := fun st => (Raise e, st).

Definition bind {A B : Type} (m : M A) (k : A -> M B) : M B :=
  fun st =>
    match m st with
    | (Ok a, st') => k a st'
    | (Raise e, st') => (Raise e, st')
    end.

Notation "x <- m ;; k" := (bind m (fun x => k))
  (at level 100, m at next level, right associativity).
Notation "m ;;; k" := (bind m (fun _ => k))
  (at level 100, right associativity).

(** [assert b] *)
Definition assert (b : bool) : M unit :=
  if b then ret tt else raise AssertionError.

(** Reading the array behind a reference. *)
Definition deref (p : loc) : M ndarray :=
  fun st =>
    match heap st !! p with
    | Some a => (Ok a, st)
    | None => (Raise OutsideModel, st)
    end.

(** A new array object gets the next free reference. *)
Definition alloc (a : ndarray) : M loc :=
  fun st => (Ok (length (heap st)),
             {| heap := heap st ++ [a]; calls := calls st |}).

Definition np_zeros (sh : list Z) (o : layout) : M loc := alloc (zeros sh o).

Definition np_size (p : loc) : M Z :=
  a <- deref p ;; ret (size_of (shape a)).

Definition np_shape (p : loc) : M (list Z) :=
  a <- deref p ;; ret (shape a).

(** [x.shape[i]] *)
Definition shape_at (p : loc) (i : nat) : M Z :=
  sh <- np_shape p ;;
  match sh !! i with
  | Some d => ret d
  | None => raise IndexError
  end.

(** ** Conversions *)

(** [float(x)] *)
Definition py_float (x : scalar) : M scalar :=
  match x with
  | SFloat f => ret (SFloat f)
  | SInt z =>
      match float_of_Z z with
      | S754_infinity _ => raise OverflowError
      | f => ret (SFloat f)
      end
  | SBool b => ret (SFloat (if b then F1 else F0))
  end.

Definition isinstance_float (x : scalar) : bool :=
  match x with SFloat _ => true | _ => false end.

Definition force_float_scalar (x : scalar) : M scalar :=
  if negb (isinstance_float x) then py_float x
  else ret x.

(** Only an ndarray has a [dtype]. *)
Definition force_float_matrix (x : pyval) : M loc :=
  match x with
  | VArr p =>
      a <- deref p ;;
      if negb (is_float64 a) then alloc (astype_float a)
      else ret p
  | _ => raise (AttributeError "dtype")
  end.

(** [np.asfortranarray(x, dtype='float64')] hands back [x] itself when no
    copy is needed. *)
Definition np_asfortranarray (p : loc) : M loc :=
  a <- deref p ;;
  if is_float64 a && f_contiguous a then ret p
  else alloc (fortran_copy a).

Definition all_ge0 (b : buffer) : bool :=
  match b with
  | F64 l => forallb (SFleb F0) l
  | I64 l => forallb (Z.leb 0) l
  end.

(** [np.all(w >= 0)] *)
Definition np_all_ge0 (p : loc) : M bool :=
  a <- deref p ;; ret (all_ge0 (data a)).

(** [len(v)] *)
Definition py_len (v : pyval) : M Z :=
  match v with
  | VSeq l => ret (Z.of_nat (length l))
  | VArr p =>
      a <- deref p ;;
      match shape a with
      | d :: _ => ret d
      | [] => raise TypeError
      end
  | _ => raise TypeError
  end.

(** [l[i]] on a Python list *)
Definition list_getitem (l : list Z) (i : nat) : M Z :=
  match l !! i with
  | Some v => ret v
  | None => raise IndexError
  end.

(** [a[i]] on a one-dimensional array; an index into an array of higher
    rank would make a view, which the store does not represent. *)
Definition array_getitem (p : loc) (i : nat) : M scalar :=
  a <- deref p ;;
  match shape a with
  | [_] =>
      match data a with
      | F64 l => match l !! i with Some f => ret (SFloat f) | None => raise IndexError end
      | I64 l => match l !! i with Some z => ret (SInt z) | None => raise IndexError end
      end
  | [] => raise IndexError
  | _ => raise OutsideModel
  end.

(** [M, N = x.shape] *)
Definition unpack2 (sh : list Z) : M (Z * Z) :=
  match sh with
  | [m; n] => ret (m, n)
  | _ => raise ValueError
  end.

Definition str_in (s : string) (l : list string) : bool :=
  existsb (String.eqb s) l.

(** ** Foreign calls and the entry points *)

(** Modelled from the spec: what one run of a native solver leaves behind,
    the entries of the solution buffer, the "fixed 3-slot numeric record"
    of diagnostics, and the status code of the C function. *)
Record native_result : Type := mk_native_result {
  nr_out : list float;
  nr_info : list float;
  nr_status : Z
}.

(** Modelled from the spec: "w == 0" for a weight argument of a native
    solver, a scalar, a tuple of scalars or a buffer of doubles. *)
Definition weight_is0 (h : list ndarray) (c : cdata) : bool :=
  match c with
  | CNum s => scalar_is0 s
  | CSeq l => forallb scalar_is0 l
  | CPtr p =>
      match h !! p with
      | Some a =>
          match data a with
          | F64 l => forallb (fun f => SFeqb f F0) l
          | I64 _ => false
          end
      | None => false
      end
  | CNull => false
  end.

(** Modelled from the spec: every weight argument of the call is zero. *)
Definition zero_weights (h : list ndarray) (fn : lib_fn) (args : list cdata) : bool :=
  forallb (fun i => match args !! i with
                    | Some c => weight_is0 h c
                    | None => false
                    end) (sig_w (lib_sig fn)).

(** Modelled from the spec: the input signal of a native solver, a
    "contiguous, column-major double-precision buffer". *)
Definition input_signal (h : list ndarray) (fn : lib_fn) (args : list cdata)
  : option (list float) :=
  match args !! sig_in (lib_sig fn) with
  | Some (CPtr p) =>
      match h !! p with
      | Some a => match data a with F64 l => Some l | I64 _ => None end
      | None => None
      end
  | _ => None
  end.

(** Modelled from the spec: a native solver fills the buffer it is given
    and leaves its extent alone. *)
Definition overwrite (old new : list float) : list float :=
  firstn (length old) (new ++ skipn (length new) old).

(** Modelled from the spec: the store after a native solver wrote [v]
    through the pointer [c]. *)
Definition write_buf (h : list ndarray) (c : option cdata) (v : list float)
  : list ndarray :=
  match c with
  | Some (CPtr p) =>
      match h !! p with
      | Some a =>
          match data a with
          | F64 old =>
              <[p := {| shape := shape a; order := order a;
                        data := F64 (overwrite old v) |}]> h
          | I64 _ => h
          end
      | None => h
      end
  | _ => h
  end.

Section Native.

(** What the numerical algorithms compute, for the arguments and the
    store a foreign function is called with. *)
Variable oracle : lib_fn -> list cdata -> list ndarray -> native_result.

(** Modelled from the spec: the native solver library behind [lib.*] (the
    C++ sources listed in [prox_tv_build.py] are not part of the sources at
    hand). A solver reads its input signal and writes only its output
    buffer and its info buffer ("the input signal is read-only during
    solving"); with all weights zero "the solution is the input unchanged";
    otherwise the solution is whatever the algorithm computes. *)
Definition native_run (fn : lib_fn) (args : list cdata) : M Z :=
  fun st =>
    let h := heap st in
    let r := oracle fn args h in
    let out :=
      match input_signal h fn args with
      | Some x => if zero_weights h fn args then x else nr_out r
      | None => nr_out r
      end in
    let h1 := write_buf h (args !! sig_out (lib_sig fn)) out in
    let h2 :=
      match sig_info (lib_sig fn) with
      | Some i => write_buf h1 (args !! i) (nr_info r)
      | None => h1
      end in
    (Ok (nr_status r), {| heap := h2; calls := calls st |}).

Definition cast_arg (arg : pyval) : cdata :=
  match arg with
  | VArr p => CPtr p
  | VNum s => CNum s
  | VSeq l => CSeq l
  | VNull => CNull
  end.

Definition _call (fn : lib_fn) (args : list pyval) : M Z :=
  fun st =>
    let args_m := map cast_arg args in
    native_run fn args_m
      {| heap := heap st; calls := calls st ++ [mk_call fn args_m] |}.

Definition VInt (z : Z) : pyval := VNum (SInt z).

(** The entry points, statement by statement. Where the source reads
    [np.size(x)] or [x.shape] a second time among the arguments of the
    foreign call, the value read for [np.zeros] is used again: reading does
    not change the store. Default arguments are passed explicitly. *)

Definition tv1_1d (x : loc) (w : scalar) (sigma : scalar) (method : string) : M loc :=
  assert (str_in method ["tautstring"; "pn"; "condat"; "dp"]) ;;;
  assert (scalar_ge0 w) ;;;
  w <- force_float_scalar w ;;
  x <- force_float_matrix (VArr x) ;;
  n <- np_size x ;;
  y <- np_zeros [n] C_order ;;
  (if String.eqb method "tautstring" then
     _call tautString_TV1 [VArr x; VNum w; VArr y; VInt n]
   else if String.eqb method "pn" then
     info <- np_zeros [_N_INFO] C_order ;;
     _call PN_TV1 [VArr x; VNum w; VArr y; VArr info; VInt n; VNum sigma; VNull]
   else if String.eqb method "condat" then
     _call TV1D_denoise [VArr x; VArr y; VInt n; VNum w]
   else
     _call dp [VInt n; VArr x; VNum w; VArr y]) ;;;
  ret y.

Definition tv1w_1d (x w : loc) (method : string) (sigma : scalar) : M loc :=
  ok <- np_all_ge0 w ;;
  assert ok ;;;
  nx <- np_size x ;;
  nw <- np_size w ;;
  assert (nx - 1 =? nw) ;;;
  w <- force_float_matrix (VArr w) ;;
  x <- force_float_matrix (VArr x) ;;
  n <- np_size x ;;
  y <- np_zeros [n] C_order ;;
  (if String.eqb method "tautstring" then
     _call tautString_TV1_Weighted [VArr x; VArr w; VArr y; VInt n]
   else
     info <- np_zeros [_N_INFO] C_order ;;
     _call PN_TV1_Weighted
       [VArr x; VArr w; VArr y; VArr info; VInt n; VNum sigma; VNull]) ;;;
  ret y.

Definition tv2_1d (x : loc) (w : scalar) (method : string) : M loc :=
  assert (scalar_ge0 w) ;;;
  assert (str_in method ["ms"; "pg"; "mspg"]) ;;;
  w <- force_float_scalar w ;;
  x <- force_float_matrix (VArr x) ;;
  info <- np_zeros [_N_INFO] C_order ;;
  n <- np_size x ;;
  y <- np_zeros [n] F_order ;;
  (if String.eqb method "ms" then
     _call more_TV2 [VArr x; VNum w; VArr y; VArr info; VInt n] ;;; ret tt
   else if String.eqb method "pg" then
     _call PG_TV2 [VArr x; VNum w; VArr y; VArr info; VInt n] ;;; ret tt
   else if String.eqb method "mspg" then
     info <- np_zeros [_N_INFO] C_order ;;
     _call morePG_TV2 [VArr x; VNum w; VArr y; VArr info; VInt n; VNull] ;;; ret tt
   else ret tt) ;;;
  ret y.

(** The [methods] dictionary of [tvp_1d]. *)
Definition tvp_methods : list (string * lib_fn) :=
  [("gp", GP_TVp); ("fw", FW_TVp); ("gpfw", GPFW_TVp)].

Definition dict_getitem (d : list (string * lib_fn)) (k : string) : M lib_fn :=
  match List.find (fun kv => String.eqb (fst kv) k) d with
  | Some kv => ret (snd kv)
  | None => raise KeyError
  end.

Definition tvp_1d (x : loc) (w p : scalar) (method : string) (max_iters : Z) : M loc :=
  assert (str_in method (map fst tvp_methods)) ;;;
  assert (scalar_ge0 w) ;;;
  assert (scalar_ge1 p) ;;;
  w <- force_float_scalar w ;;
  p <- force_float_scalar p ;;
  x <- force_float_matrix (VArr x) ;;
  info <- np_zeros [_N_INFO] C_order ;;
  n <- np_size x ;;
  y <- np_zeros [n] F_order ;;
  fn <- dict_getitem tvp_methods method ;;
  _call fn [VArr x; VNum w; VArr y; VArr info; VInt n; VNum p; VNull] ;;;
  ret y.

Definition tv1_2d (x : loc) (w : scalar) (n_threads max_iters : Z) (method : string)
  : M loc :=
  assert (scalar_ge0 w) ;;;
  assert (str_in method ["dr"; "pd"; "yang"; "condat"; "chambolle-pock"]) ;;;
  x <- np_asfortranarray x ;;
  w <- force_float_scalar w ;;
  sh <- np_shape x ;;
  y0 <- np_zeros sh C_order ;;
  y <- np_asfortranarray y0 ;;
  info <- np_zeros [_N_INFO] C_order ;;
  (if String.eqb method "yang" then
     m <- shape_at x 0 ;;
     n <- shape_at x 1 ;;
     _call Yang2_TV
       [VInt m; VInt n; VArr x; VNum w; VArr y; VInt max_iters; VArr info]
   else if String.eqb method "dr" then
     m <- shape_at x 0 ;;
     n <- shape_at x 1 ;;
     _call DR2_TV
       [VInt m; VInt n; VArr x; VNum w; VNum w;
        VNum (SFloat F1); VNum (SFloat F1); VArr y;
        VInt n_threads; VInt max_iters; VArr info]
   else if String.eqb method "pd" then
     sh <- np_shape x ;;
     _call PD2_TV
       [VArr x; VSeq [w; w]; VSeq [SInt 1; SInt 1]; VSeq [SInt 1; SInt 2];
        VArr y; VArr info; VSeq (map SInt sh); VInt 2; VInt 2;
        VInt n_threads; VInt max_iters]
   else
     let algorithm := if String.eqb method "condat" then 0 else 1 in
     m <- shape_at x 0 ;;
     n <- shape_at x 1 ;;
     _call CondatChambollePock2_TV
       [VInt m; VInt n; VArr x; VNum w; VArr y; VInt algorithm;
        VInt max_iters; VArr info]) ;;;
  ret y.

Definition tv1w_2d (x w_col w_row : loc) (max_iters n_threads : Z) : M loc :=
  okc <- np_all_ge0 w_col ;;
  assert okc ;;;
  okr <- np_all_ge0 w_row ;;
  assert okr ;;;
  sh <- np_shape x ;;
  mn <- unpack2 sh ;;
  let (m, n) := mn in
  shc <- np_shape w_col ;;
  assert (bool_decide (shc = [m - 1; n])) ;;;
  shr <- np_shape w_row ;;
  assert (bool_decide (shr = [m; n - 1])) ;;;
  x <- np_asfortranarray x ;;
  sh <- np_shape x ;;
  y <- np_zeros sh F_order ;;
  w_col <- np_asfortranarray w_col ;;
  w_row <- np_asfortranarray w_row ;;
  info <- np_zeros [_N_INFO] C_order ;;
  _call DR2L1W_TV
    [VInt m; VInt n; VArr x; VArr w_col; VArr w_row; VArr y;
     VInt n_threads; VInt max_iters; VArr info] ;;;
  ret y.

Definition tvp_2d (x : loc) (w_col w_row p_col p_row : scalar)
    (n_threads max_iters : Z) : M loc :=
  assert (scalar_ge0 w_col) ;;;
  assert (scalar_ge0 w_row) ;;;
  assert (scalar_ge1 p_col) ;;;
  assert (scalar_ge1 p_row) ;;;
  info <- np_zeros [_N_INFO] C_order ;;
  x <- np_asfortranarray x ;;
  w_col <- force_float_scalar w_col ;;
  w_row <- force_float_scalar w_row ;;
  p_col <- force_float_scalar p_col ;;
  p_row <- force_float_scalar p_row ;;
  sh <- np_shape x ;;
  y <- np_zeros sh F_order ;;
  m <- shape_at x 0 ;;
  n <- shape_at x 1 ;;
  _call DR2_TV
    [VInt m; VInt n; VArr x; VNum w_col; VNum w_row; VNum p_col; VNum p_row;
     VArr y; VInt n_threads; VInt max_iters; VArr info] ;;;
  ret y.

(** [len(ds) == 2 & ds[0] == 1 & ds[1] == 2]: [&] binds tighter than [==],
    so Python reads the comparison chain
    [len(ds) == (2 & ds[0]) == (1 & ds[1]) == 2], which stops at the first
    link that fails. *)
Definition dr_condition (ds : list Z) : M bool :=
  let a := Z.of_nat (length ds) in
  d0 <- list_getitem ds 0 ;;
  let b := Z.land 2 d0 in
  if negb (a =? b) then ret false
  else
    d1 <- list_getitem ds 1 ;;
    let c := Z.land 1 d1 in
    if negb (b =? c) then ret false
    else ret (c =? 2).

Definition tvgen (x : loc) (ws : pyval) (ds : list Z) (ps : pyval)
    (n_threads max_iters : Z) : M loc :=
  lw <- py_len ws ;;
  assert (lw =? Z.of_nat (length ds)) ;;;
  lw <- py_len ws ;;
  lp <- py_len ps ;;
  assert (lw =? lp) ;;;
  assert (1 <=? n_threads) ;;;
  assert (0 <=? max_iters) ;;;
  info <- np_zeros [_N_INFO] C_order ;;
  x <- np_asfortranarray x ;;
  ws <- force_float_matrix ws ;;
  ps <- force_float_matrix ps ;;
  sh <- np_shape x ;;
  y <- np_zeros sh F_order ;;
  dr <- dr_condition ds ;;
  (if dr then
     m <- shape_at x 0 ;;
     n <- shape_at x 1 ;;
     w0 <- array_getitem ws 0 ;;
     w1 <- array_getitem ws 1 ;;
     p0 <- array_getitem ps 0 ;;
     p1 <- array_getitem ps 1 ;;
     _call DR2_TV
       [VInt m; VInt n; VArr x; VNum w0; VNum w1; VNum p0; VNum p1; VArr y;
        VInt n_threads; VInt max_iters; VArr info]
   else
     lw <- py_len (VArr ws) ;;
     if lw =? 2 then
       sh <- np_shape x ;;
       _call PD2_TV
         [VArr x; VArr ws; VArr ps; VSeq (map SInt ds); VArr y; VArr info;
          VSeq (map SInt sh); VInt (Z.of_nat (length sh)); VInt 2;
          VInt n_threads; VInt max_iters]
     else
       sh <- np_shape x ;;
       lw <- py_len (VArr ws) ;;
       _call PD_TV
         [VArr x; VArr ws; VArr ps; VSeq (map SInt ds); VArr y; VArr info;
          VSeq (map SInt sh); VInt (Z.of_nat (length sh)); VInt lw;
          VInt n_threads; VInt max_iters]) ;;;
  ret y.

(** A call of one of the eight entry points, with its arguments. *)
Inductive entry_call : Type :=
| Call_tv1_1d (x : loc) (w sigma : scalar) (method : string)
| Call_tv1w_1d (x w : loc) (method : string) (sigma : scalar)
| Call_tv2_1d (x : loc) (w : scalar) (method : string)
| Call_tvp_1d (x : loc) (w p : scalar) (method : string) (max_iters : Z)
| Call_tv1_2d (x : loc) (w : scalar) (n_threads max_iters : Z) (method : string)
| Call_tv1w_2d (x w_col w_row : loc) (max_iters n_threads : Z)
| Call_tvp_2d (x : loc) (w_col w_row p_col p_row : scalar) (n_threads max_iters : Z)
| Call_tvgen (x : loc) (ws : pyval) (ds : list Z) (ps : pyval) (n_threads max_iters : Z).

Definition run_entry (c : entry_call) : M loc :=
  match c with
  | Call_tv1_1d x w sigma method => tv1_1d x w sigma method
  | Call_tv1w_1d x w method sigma => tv1w_1d x w method sigma
  | Call_tv2_1d x w method => tv2_1d x w method
  | Call_tvp_1d x w p method max_iters => tvp_1d x w p method max_iters
  | Call_tv1_2d x w n_threads max_iters method => tv1_2d x w n_threads max_iters method
  | Call_tv1w_2d x w_col w_row max_iters n_threads =>
      tv1w_2d x w_col w_row max_iters n_threads
  | Call_tvp_2d x w_col w_row p_col p_row n_threads max_iters =>
      tvp_2d x w_col w_row p_col p_row n_threads max_iters
  | Call_tvgen x ws ds ps n_threads max_iters => tvgen x ws ds ps n_threads max_iters
  end.

End Native.

(** ** Specification vocabulary *)

Abbreviation oracle_t := (lib_fn -> list cdata -> list ndarray -> native_result).

(** [wp m st Q]: running [m] from [st] ends in a result and a state that
    satisfy [Q]. *)
Definition wp {A : Type} (m : M A) (st : state) (Q : result A -> state -> Prop) : Prop :=
  Q (fst (m st)) (snd (m st)).

(** [wp2 m1 m2 st Q]: the runs of [m1] and of [m2] from the same state
    [st] end in results and states related by [Q]. *)
Definition wp2 {A : Type} (m1 m2 : M A) (st : state)
    (Q : result A * state -> result A * state -> Prop) : Prop :=
  Q (m1 st) (m2 st).

(** What [bind _ k] does with the outcome of its first computation. *)
Definition continue {A B : Type} (k : A -> M B) (rs : result A * state)
  : result B * state :=
  match rs with
  | (Ok a, st) => k a st
  | (Raise e, st) => (Raise e, st)
  end.

(** Two solvers that leave the same solution on every call; the
    diagnostics and the status they report are free to differ. *)
Definition same_solution (o1 o2 : oracle_t) : Prop :=
  forall fn args h, nr_out (o1 fn args h) = nr_out (o2 fn args h).

(** The value of [force_float_scalar x], which does not depend on the
    store. *)
Definition float_value (x : scalar) : result scalar :=
  fst (force_float_scalar x {| heap := []; calls := [] |}).

(** The buffers a foreign call may write through. *)
Definition ptr_of (c : option cdata) : list loc :=
  match c with Some (CPtr p) => [p] | _ => [] end.

Definition call_targets (fn : lib_fn) (args : list pyval) : list loc :=
  let args_m := map cast_arg args in
  ptr_of (args_m !! sig_out (lib_sig fn))
  ++ match sig_info (lib_sig fn) with
     | Some i => ptr_of (args_m !! i)
     | None => []
     end.

(** The signal argument [x] of a call. *)
Definition signal_of (c : entry_call) : loc :=
  match c with
  | Call_tv1_1d x _ _ _ | Call_tv1w_1d x _ _ _ | Call_tv2_1d x _ _
  | Call_tvp_1d x _ _ _ _ | Call_tv1_2d x _ _ _ _ | Call_tv1w_2d x _ _ _ _
  | Call_tvp_2d x _ _ _ _ _ _ | Call_tvgen x _ _ _ _ _ => x
  end.

(** The one-dimensional entry points allocate [np.zeros(np.size(x))]. *)
Definition flat_result (c : entry_call) : bool :=
  match c with
  | Call_tv1_1d _ _ _ _ | Call_tv1w_1d _ _ _ _ | Call_tv2_1d _ _ _
  | Call_tvp_1d _ _ _ _ _ => true
  | _ => false
  end.

Definition val_refs (v : pyval) : list loc :=
  match v with VArr p => [p] | _ => [] end.

(** The array references among the arguments of a call. *)
Definition refs_of (c : entry_call) : list loc :=
  match c with
  | Call_tv1_1d x _ _ _ | Call_tv2_1d x _ _ | Call_tvp_1d x _ _ _ _
  | Call_tv1_2d x _ _ _ _ | Call_tvp_2d x _ _ _ _ _ _ => [x]
  | Call_tv1w_1d x w _ _ => [x; w]
  | Call_tv1w_2d x w_col w_row _ _ => [x; w_col; w_row]
  | Call_tvgen x ws _ ps _ _ => x :: val_refs ws ++ val_refs ps
  end.

(** A Python caller only holds references to objects that exist. *)
Definition valid_refs (h : list ndarray) (c : entry_call) : Prop :=
  Forall (fun p => is_Some (h !! p)) (refs_of c).

(** The dispatch table the entry points implement. *)
Definition chosen_solver (c : entry_call) : lib_fn :=
  match c with
  | Call_tv1_1d _ _ _ method =>
      if String.eqb method "tautstring" then tautString_TV1
      else if String.eqb method "pn" then PN_TV1
      else if String.eqb method "condat" then TV1D_denoise
      else dp
  | Call_tv1w_1d _ _ method _ =>
      if String.eqb method "tautstring" then tautString_TV1_Weighted
      else PN_TV1_Weighted
  | Call_tv2_1d _ _ method =>
      if String.eqb method "ms" then more_TV2
      else if String.eqb method "pg" then PG_TV2
      else morePG_TV2
  | Call_tvp_1d _ _ _ method _ =>
      if String.eqb "gp" method then GP_TVp
      else if String.eqb "fw" method then FW_TVp
      else GPFW_TVp
  | Call_tv1_2d _ _ _ _ method =>
      if String.eqb method "yang" then Yang2_TV
      else if String.eqb method "dr" then DR2_TV
      else if String.eqb method "pd" then PD2_TV
      else CondatChambollePock2_TV
  | Call_tv1w_2d _ _ _ _ _ => DR2L1W_TV
  | Call_tvp_2d _ _ _ _ _ _ _ => DR2_TV
  | Call_tvgen _ _ ds _ _ _ =>
      if Z.of_nat (length ds) =? 2 then PD2_TV else PD_TV
  end.

(** The [max_iters] argument of the entry points that have one. *)
Definition cap_of (c : entry_call) : option Z :=
  match c with
  | Call_tvp_1d _ _ _ _ max_iters | Call_tv1_2d _ _ _ max_iters _
  | Call_tv1w_2d _ _ _ max_iters _ | Call_tvp_2d _ _ _ _ _ _ max_iters
  | Call_tvgen _ _ _ _ _ max_iters => Some max_iters
  | _ => None
  end.

(** Where the solver has an iteration cap it is the caller's. *)
Definition cap_forwarded (c : entry_call) (fn : lib_fn) (args_m : list cdata) : Prop :=
  forall i, sig_maxit (lib_sig fn) = Some i ->
    exists max_iters, cap_of c = Some max_iters
                      /\ args_m !! i = Some (CNum (SInt max_iters)).

(** The info buffer of the call, where the solver takes one, is an array
    allocated after the call began, and not the output buffer [y]. *)
Definition info_local (h0 : list ndarray) (fn : lib_fn) (args : list pyval)
    (y : loc) : Prop :=
  match sig_info (lib_sig fn) with
  | Some i =>
      exists q, map cast_arg args !! i = Some (CPtr q) /\ q <> y
                /\ (length h0 <= q)%nat
  | None => True
  end.

(** The shape of every run of an entry point: either it raises having
    only allocated, or it allocates, makes one foreign call whose output
    buffer is a new float64 array, and returns that array. *)
Definition entry_post (o : oracle_t) (st0 : state) (c : entry_call)
    (r : result loc) (st' : state) : Prop :=
  match r with
  | Raise e => calls st' = calls st0 /\ exists ext, heap st' = heap st0 ++ ext
  | Ok y =>
      exists ext fn args ax ay,
        st' = snd (_call o fn args
                     {| heap := heap st0 ++ ext; calls := calls st0 |}) /\
        heap st0 !! signal_of c = Some ax /\
        (heap st0 ++ ext) !! y = Some ay /\
        (length (heap st0) <= y)%nat /\
        is_float64 ay = true /\
        shape ay = (if flat_result c then [size_of (shape ax)] else shape ax) /\
        map cast_arg args !! sig_out (lib_sig fn) = Some (CPtr y) /\
        info_local (heap st0) fn args y /\
        fn = chosen_solver c /\
        cap_forwarded c fn (map cast_arg args)
  end.

(** [len(v)] where it is defined. *)
Definition seq_len (h : list ndarray) (v : pyval) : option Z :=
  match v with
  | VSeq l => Some (Z.of_nat (length l))
  | VArr p =>
      match h !! p with
      | Some a => match shape a with d :: _ => Some d | [] => None end
      | None => None
      end
  | _ => None
  end.

(** Some entry of the buffer is [< 0]. *)
Definition has_negative (b : buffer) : bool :=
  match b with
  | F64 l => existsb (fun f => SFltb f F0) l
  | I64 l => existsb (fun z => z <? 0) l
  end.

(** Some entry of the buffer is [< 1]. *)
Definition has_below_one (b : buffer) : bool :=
  match b with
  | F64 l => existsb (fun f => SFltb f F1) l
  | I64 l => existsb (fun z => z <? 1) l
  end.

(** The call carries a negative weight or a norm below 1. *)
Definition negative_input (h : list ndarray) (c : entry_call) : Prop :=
  match c with
  | Call_tv1_1d _ w _ _ | Call_tv2_1d _ w _ | Call_tv1_2d _ w _ _ _ =>
      scalar_lt0 w = true
  | Call_tvp_1d _ w p _ _ => scalar_lt0 w = true \/ scalar_lt1 p = true
  | Call_tv1w_1d _ w _ _ =>
      exists aw, h !! w = Some aw /\ has_negative (data aw) = true
  | Call_tv1w_2d _ w_col w_row _ _ =>
      exists ac ar, h !! w_col = Some ac /\ h !! w_row = Some ar
        /\ (has_negative (data ac) = true \/ has_negative (data ar) = true)
  | Call_tvp_2d _ w_col w_row p_col p_row _ _ =>
      scalar_lt0 w_col = true \/ scalar_lt0 w_row = true
      \/ scalar_lt1 p_col = true \/ scalar_lt1 p_row = true
  | Call_tvgen _ ws _ ps _ _ =>
      exists pw pp aw ap, ws = VArr pw /\ ps = VArr pp
        /\ h !! pw = Some aw /\ h !! pp = Some ap
        /\ (has_negative (data aw) = true \/ has_below_one (data ap) = true)
  end.

Definition is_tvgen (c : entry_call) : bool :=
  match c with Call_tvgen _ _ _ _ _ _ => true | _ => false end.

Definition is_tv1w_1d (c : entry_call) : bool :=
  match c with Call_tv1w_1d _ _ _ _ => true | _ => false end.

Definition is_tvp_1d (c : entry_call) : bool :=
  match c with Call_tvp_1d _ _ _ _ _ => true | _ => false end.

(** The method selector of a call and the family its documentation
    enumerates. *)
Definition method_of (c : entry_call) : option (string * list string) :=
  match c with
  | Call_tv1_1d _ _ _ method => Some (method, ["tautstring"; "pn"; "condat"; "dp"])
  | Call_tv1w_1d _ _ method _ => Some (method, ["tautstring"; "pn"])
  | Call_tv2_1d _ _ method => Some (method, ["ms"; "pg"; "mspg"])
  | Call_tvp_1d _ _ _ method _ => Some (method, ["gp"; "fw"; "gpfw"])
  | Call_tv1_2d _ _ _ _ method =>
      Some (method, ["dr"; "pd"; "yang"; "condat"; "chambolle-pock"])
  | _ => None
  end.

Definition is_array (v : pyval) : Prop := exists p, v = VArr p.

(** Every entry of the buffer is [== 0]. *)
Definition all_zero (b : buffer) : bool :=
  match b with
  | F64 l => forallb (fun f => SFeqb f F0) l
  | I64 l => forallb (fun z => z =? 0) l
  end.

(** A float64 array whose entries are all [== 0]. *)
Definition zero_array (a : ndarray) : Prop :=
  exists l, data a = F64 l /\ forallb (fun f => SFeqb f F0) l = true.

(** The buffer holds as many entries as the shape announces. *)
Definition well_sized (a : ndarray) : Prop :=
  buffer_length (data a) = Z.to_nat (size_of (shape a)).

(** [x] refers to an array of the given rank. *)
Definition signal_at (h : list ndarray) (x : loc) (rank : nat) : Prop :=
  exists ax, h !! x = Some ax /\ well_sized ax /\ length (shape ax) = rank.

(** [float(p)] succeeds. *)
Definition float_ok (p : scalar) : Prop := exists a, float_value p = Ok a.

Definition is_list (v : pyval) : Prop :=
  match v with VSeq _ => True | _ => False end.

(** What a call needs, beside its weights, to get as far as its solver:
    a signal of the rank the entry point is written for, a method of the
    family, norms that pass the checks, weight arrays of the expected
    extent. *)
Definition call_ready (h : list ndarray) (c : entry_call) : Prop :=
  match c with
  | Call_tv1_1d x w sigma method =>
      signal_at h x 1 /\ str_in method ["tautstring"; "pn"; "condat"; "dp"] = true
  | Call_tv1w_1d x w method sigma =>
      exists ax aw, h !! x = Some ax /\ well_sized ax /\ length (shape ax) = 1%nat
        /\ h !! w = Some aw /\ size_of (shape ax) - 1 = size_of (shape aw)
  | Call_tv2_1d x w method =>
      signal_at h x 1 /\ str_in method ["ms"; "pg"; "mspg"] = true
  | Call_tvp_1d x w p method max_iters =>
      signal_at h x 1 /\ str_in method ["gp"; "fw"; "gpfw"] = true
      /\ scalar_ge1 p = true /\ float_ok p
  | Call_tv1_2d x w n_threads max_iters method =>
      signal_at h x 2
      /\ str_in method ["dr"; "pd"; "yang"; "condat"; "chambolle-pock"] = true
  | Call_tv1w_2d x w_col w_row max_iters n_threads =>
      exists ax ac ar m n, h !! x = Some ax /\ well_sized ax /\ shape ax = [m; n]
        /\ h !! w_col = Some ac /\ shape ac = [m - 1; n]
        /\ h !! w_row = Some ar /\ shape ar = [m; n - 1]
  | Call_tvp_2d x w_col w_row p_col p_row n_threads max_iters =>
      signal_at h x 2
      /\ scalar_ge1 p_col = true /\ float_ok p_col
      /\ scalar_ge1 p_row = true /\ float_ok p_row
  | Call_tvgen x ws ds ps n_threads max_iters =>
      exists ax pw pp aw ap, h !! x = Some ax /\ well_sized ax
        /\ ws = VArr pw /\ h !! pw = Some aw
        /\ seq_len h ws = Some (Z.of_nat (length ds))
        /\ ps = VArr pp /\ h !! pp = Some ap
        /\ seq_len h ps = Some (Z.of_nat (length ds))
        /\ ds <> [] /\ 1 <= n_threads /\ 0 <= max_iters
  end.

(** Every weight of the call is zero. *)
Definition zero_weight (h : list ndarray) (c : entry_call) : Prop :=
  match c with
  | Call_tv1_1d _ w _ _ | Call_tv2_1d _ w _ | Call_tvp_1d _ w _ _ _
  | Call_tv1_2d _ w _ _ _ => scalar_is0 w = true
  | Call_tv1w_1d _ w _ _ =>
      exists aw, h !! w = Some aw /\ all_zero (data aw) = true
  | Call_tv1w_2d _ w_col w_row _ _ =>
      exists ac ar, h !! w_col = Some ac /\ all_zero (data ac) = true
        /\ h !! w_row = Some ar /\ all_zero (data ar) = true
  | Call_tvp_2d _ w_col w_row _ _ _ _ =>
      scalar_is0 w_col = true /\ scalar_is0 w_row = true
  | Call_tvgen _ ws _ _ _ _ =>
      exists pw aw, ws = VArr pw /\ h !! pw = Some aw /\ all_zero (data aw) = true
  end.

(** [ay] has the shape of [ax] and holds its entries, as float64 in
    column-major order. *)
Definition same_signal (ay ax : ndarray) : Prop :=
  shape ay = shape ax /\ data ay = F64 (fortran_entries ax).

(** The run returns an array equal to the signal [ax]. *)
Definition identity_post (ax : ndarray) (r : result loc) (st' : state) : Prop :=
  exists y ay, r = Ok y /\ heap st' !! y = Some ay /\ same_signal ay ax.

(** What the caller gets back: the exception, or the returned reference
    with the array behind it. *)
Definition returned (rs : result loc * state) : exn + loc * option ndarray :=
  match fst rs with
  | Ok y => inr (y, heap (snd rs) !! y)
  | Raise e => inl e
  end.

(** The info buffer handed to the solver by the last logged call, as the
    solver left it. *)
Definition reported_info (rs : result loc * state) : option ndarray :=
  match last (calls (snd rs)) with
  | Some c =>
      match sig_info (lib_sig (nc_fn c)) with
      | Some i =>
          match nc_args c !! i with
          | Some (CPtr q) => heap (snd rs) !! q
          | _ => None
          end
      | None => None
      end
  | None => None
  end.

(** C2 as the claim states it: the diagnostics are part of what the
    entry point returns, that is, they can be read off the returned value
    whatever the solver computes. *)
Definition returns_diagnostics (c : entry_call) (st : state) : Prop :=
  exists decode : exn + loc * option ndarray -> option ndarray,
    forall o : oracle_t,
      decode (returned (run_entry o c st)) = reported_info (run_entry o c st).

(** The logged foreign calls a run adds. *)
Definition new_calls (st : state) (rs : result loc * state) : list native_call :=
  skipn (length (calls st)) (calls (snd rs)).

(** ** Concrete stores for the examples *)

Definition fl (z : Z) : float := float_of_Z z.

Definition vec (l : list float) : ndarray :=
  {| shape := [Z.of_nat (length l)]; order := C_order; data := F64 l |}.

Definition mat22 : ndarray :=
  {| shape := [2; 2]; order := F_order; data := F64 [fl 1; fl 3; fl 2; fl 4] |}.

(** A solver that writes nothing. *)
Definition quiet_oracle : oracle_t :=
  fun _ _ _ => {| nr_out := []; nr_info := []; nr_status := 0 |}.

(** Two solvers that agree on the solution and differ in the diagnostics
    they report. *)
Definition oracle_5_iters : oracle_t :=
  fun _ _ _ => {| nr_out := [fl 2; fl 2; fl 2]; nr_info := [fl 5; fl 0; fl 0];
                  nr_status := 0 |}.

Definition oracle_9_iters : oracle_t :=
  fun _ _ _ => {| nr_out := [fl 2; fl 2; fl 2]; nr_info := [fl 9; fl 0; fl 0];
                  nr_status := 0 |}.

(** [x = [[1, 2], [3, 4]]], [ws = [1, 1]], [ps = [1, 1]] *)
Definition st_axes : state :=
  {| heap := [mat22; vec [fl 1; fl 1]; vec [fl 1; fl 1]]; calls := [] |}.

(** [x = [[1, 2], [3, 4]]], [ws = [-1, 1]], [ps = [0, 1]] *)
Definition st_negative : state :=
  {| heap := [mat22; vec [fl (-1); fl 1]; vec [fl 0; fl 1]]; calls := [] |}.

(** [x = [1, 2, 3]], [w = [1, 1]] *)
Definition st_signal3 : state :=
  {| heap := [vec [fl 1; fl 2; fl 3]; vec [fl 1; fl 1]]; calls := [] |}.

(** [x = [1, 2, 3]] with dtype int64 *)
Definition st_int3 : state :=
  {| heap := [{| shape := [3]; order := C_order; data := I64 [1; 2; 3] |}];
     calls := [] |}.

(** [x = [[1, 2], [3, 4]]], [w_col = [[1, 1]]], [w_row = [[1], [1]]] *)
Definition st_weighted : state :=
  {| heap := [mat22;
              {| shape := [1; 2]; order := F_order; data := F64 [fl 1; fl 1] |};
              {| shape := [2; 1]; order := F_order; data := F64 [fl 1; fl 1] |}];
     calls := [] |}.

(** [tvgen(x, [1, 1], [1, 2], [1, 1])]: one term along each axis of a
    matrix, as numpy arrays *)
Definition axes_call : entry_call :=
  Call_tvgen 0%nat (VArr 1%nat) [1; 2] (VArr 2%nat) 1 0.

(** the same call with Python lists *)
Definition lists_call : entry_call :=
  Call_tvgen 0%nat (VSeq [SInt 1; SInt 1]) [1; 2] (VSeq [SInt 1; SInt 1]) 1 0.

(** [tv1w_1d(x, w, method='newton')] *)
Definition newton_call : entry_call :=
  Call_tv1w_1d 0%nat 1%nat "newton" (SFloat sigma_default).

(** [tvp_1d(x, 1, 2, max_iters=7)] *)
Definition capped_call : entry_call :=
  Call_tvp_1d 0%nat (SInt 1) (SInt 2) "gpfw" 7.

(** [tv2_1d(x, 1)] *)
Definition tv2_call : entry_call := Call_tv2_1d 0%nat (SInt 1) "mspg".

(** ** The declared C signatures *)

(** The parameter types that occur in the [ffi.cdef] declarations. *)
Inductive ctype : Type :=
| c_double | c_int | c_size_t | c_short
| c_double_ptr | c_int_ptr | c_workspace_ptr.

(** The parameter list of each function, as [ffi.cdef] in
    [prox_tv_build.py] declares it. *)
Definition lib_params (fn : lib_fn) : list ctype :=
  match fn with
  | TV1D_denoise => [c_double_ptr; c_double_ptr; c_int; c_double]
  | dp => [c_int; c_double_ptr; c_double; c_double_ptr]
  | tautString_TV1 => [c_double_ptr; c_double; c_double_ptr; c_int]
  | PN_TV1 =>
      [c_double_ptr; c_double; c_double_ptr; c_double_ptr; c_int; c_double;
       c_workspace_ptr]
  | PN_TV1_Weighted =>
      [c_double_ptr; c_double_ptr; c_double_ptr; c_double_ptr; c_int; c_double;
       c_workspace_ptr]
  | tautString_TV1_Weighted => [c_double_ptr; c_double_ptr; c_double_ptr; c_int]
  | more_TV2 | PG_TV2 =>
      [c_double_ptr; c_double; c_double_ptr; c_double_ptr; c_int]
  | morePG_TV2 =>
      [c_double_ptr; c_double; c_double_ptr; c_double_ptr; c_int; c_workspace_ptr]
  | DR2L1W_TV =>
      [c_size_t; c_size_t; c_double_ptr; c_double_ptr; c_double_ptr; c_double_ptr;
       c_int; c_int; c_double_ptr]
  | PD2_TV | PD_TV =>
      [c_double_ptr; c_double_ptr; c_double_ptr; c_double_ptr; c_double_ptr;
       c_double_ptr; c_int_ptr; c_int; c_int; c_int; c_int]
  | DR2_TV =>
      [c_size_t; c_size_t; c_double_ptr; c_double; c_double; c_double; c_double;
       c_double_ptr; c_int; c_int; c_double_ptr]
  | CondatChambollePock2_TV =>
      [c_size_t; c_size_t; c_double_ptr; c_double; c_double_ptr; c_short; c_int;
       c_double_ptr]
  | Yang2_TV =>
      [c_size_t; c_size_t; c_double_ptr; c_double; c_double_ptr; c_int;
       c_double_ptr]
  | GP_TVp | OGP_TVp | FISTA_TVp | FW_TVp | GPFW_TVp =>
      [c_double_ptr; c_double; c_double_ptr; c_double_ptr; c_int; c_double;
       c_workspace_ptr]
  end.

Definition is_integer (s : scalar) : bool :=
  match s with SInt _ | SBool _ => true | SFloat _ => false end.

(** Which Python arguments cffi converts to a parameter of a C type, by
    kind: any number for a [double], an integer for an integer type, a
    [double *] (what [_call] makes of an ndarray), a tuple or list of
    numbers or [ffi.NULL] for a [double *], a tuple or list of integers or
    [ffi.NULL] for an [int *], [ffi.NULL] for a [Workspace *]. The ranges
    of the integer types are left out. *)
Definition accepts_arg (t : ctype) (c : cdata) : bool :=
  match t, c with
  | c_double, CNum _ => true
  | (c_int | c_size_t | c_short), CNum s => is_integer s
  | c_double_ptr, (CPtr _ | CSeq _ | CNull) => true
  | c_int_ptr, CSeq l => forallb is_integer l
  | c_int_ptr, CNull => true
  | c_workspace_ptr, CNull => true
  | _, _ => false
  end.

Fixpoint accepts_args (ts : list ctype) (cs : list cdata) : bool :=
  match ts, cs with
  | [], [] => true
  | t :: ts', c :: cs' => accepts_arg t c && accepts_args ts' cs'
  | _, _ => false
  end.

(** A logged call has as many arguments as the declaration has
    parameters, each of a kind its parameter takes. *)
Definition well_typed (nc : native_call) : bool :=
  accepts_args (lib_params (nc_fn nc)) (nc_args nc).

(** Behind every pointer among the arguments there is a float64 array. *)
Definition float64_behind (h : list ndarray) (args_m : list cdata) : Prop :=
  forall p, CPtr p ∈ args_m -> exists a, h !! p = Some a /\ is_float64 a = true.

(** The signal is already in the form the entry point converts it to:
    float64, and Fortran contiguous when the entry point calls
    [np.asfortranarray]. *)
Definition needs_no_copy (c : entry_call) (ax : ndarray) : bool :=
  is_float64 ax && (flat_result c || f_contiguous ax).

(** The entries the entry point hands to its solver for the signal [ax]:
    those of [force_float_matrix(x)] in the one-dimensional entry points,
    those of [np.asfortranarray(x, dtype='float64')] in the others. *)
Definition passed_entries (c : entry_call) (ax : ndarray) : list float :=
  if flat_result c then to_float64 (data ax) else fortran_entries ax.

(** An extent of the signal as an integer argument. *)
Definition extent_arg (d : option Z) : option cdata :=
  option_map (fun z => CNum (SInt z)) d.

(** The solver is told the extents [sh]: in the parameter its declaration
    names [n] or [width] the number of entries, in [M] and [N] the first
    two extents, in [ns] all of them. *)
Definition told_extents (fn : lib_fn) (args_m : list cdata) (sh : list Z) : Prop :=
  match fn with
  | TV1D_denoise => args_m !! 2%nat = Some (CNum (SInt (size_of sh)))
  | dp => args_m !! 0%nat = Some (CNum (SInt (size_of sh)))
  | tautString_TV1 | tautString_TV1_Weighted =>
      args_m !! 3%nat = Some (CNum (SInt (size_of sh)))
  | PN_TV1 | PN_TV1_Weighted | more_TV2 | PG_TV2 | morePG_TV2
  | GP_TVp | OGP_TVp | FISTA_TVp | FW_TVp | GPFW_TVp =>
      args_m !! 4%nat = Some (CNum (SInt (size_of sh)))
  | DR2L1W_TV | DR2_TV | CondatChambollePock2_TV | Yang2_TV =>
      args_m !! 0%nat = extent_arg (sh !! 0%nat)
      /\ args_m !! 1%nat = extent_arg (sh !! 1%nat)
  | PD2_TV | PD_TV => args_m !! 6%nat = Some (CSeq (map SInt sh))
  end.

(** Two solvers that write the same solution and the same diagnostics on
    every call; the status codes they return are free to differ. *)
Definition same_writes (o1 o2 : oracle_t) : Prop :=
  forall fn args h,
    nr_out (o1 fn args h) = nr_out (o2 fn args h)
    /\ nr_info (o1 fn args h) = nr_info (o2 fn args h).

(** Solvers that report success and failure. *)
Definition oracle_status (z : Z) : oracle_t :=
  fun _ _ _ => {| nr_out := [fl 2; fl 2; fl 2]; nr_info := [fl 5; fl 0; fl 0];
                  nr_status := z |}.

(** Where the declaration of a solver has its number of threads
    ([nThreads], [ncores]). *)
Definition thread_slot (fn : lib_fn) : option nat :=
  match fn with
  | DR2L1W_TV => Some 6%nat
  | DR2_TV => Some 8%nat
  | PD2_TV | PD_TV => Some 9%nat
  | _ => None
  end.

(** The [n_threads] argument of the entry points that have one. *)
Definition threads_of (c : entry_call) : option Z :=
  match c with
  | Call_tv1_2d _ _ n_threads _ _ | Call_tv1w_2d _ _ _ _ n_threads
  | Call_tvp_2d _ _ _ _ _ n_threads _ | Call_tvgen _ _ _ _ n_threads _ =>
      Some n_threads
  | _ => None
  end.

(** [tv2_1d(tv2_1d(x, 1), 1, method='ms')]: the second call, on the array
    the first one returned *)
Definition second_call (y : nat) : entry_call := Call_tv2_1d y (SInt 1) "ms".

(** [tv1w_2d(x, w_col, w_row, max_iters=5, n_threads=2)] *)
Definition weighted_call : entry_call := Call_tv1w_2d 0%nat 1%nat 2%nat 5 2.

(** The exceptions each entry point can end in. *)
Definition may_raise (c : entry_call) : list exn :=
  match c with
  | Call_tv1_1d _ _ _ _ | Call_tv2_1d _ _ _ | Call_tvp_1d _ _ _ _ _ =>
      [AssertionError; OverflowError]
  | Call_tv1w_1d _ _ _ _ => [AssertionError]
  | Call_tv1_2d _ _ _ _ _ | Call_tvp_2d _ _ _ _ _ _ _ =>
      [AssertionError; OverflowError; IndexError]
  | Call_tv1w_2d _ _ _ _ _ => [AssertionError; ValueError]
  | Call_tvgen _ _ _ _ _ _ =>
      [AssertionError; TypeError; AttributeError "dtype"; IndexError]
  end.


(** The array weights and norms of a call, each with the position of the
    solver parameter it is meant for ([lambda] or [W] of the weighted
    one-dimensional solvers, [W1] and [W2] of [DR2L1W_TV], [lambdas] and
    [norms] of the Dykstra solvers). *)
Definition array_args (c : entry_call) : list (nat * nat) :=
  match c with
  | Call_tv1w_1d _ w _ _ => [(1%nat, w)]
  | Call_tv1w_2d _ w_col w_row _ _ => [(3%nat, w_col); (4%nat, w_row)]
  | Call_tvgen _ ws _ ps _ _ =>
      map (pair 1%nat) (val_refs ws) ++ map (pair 2%nat) (val_refs ps)
  | _ => []
  end.

(** [tv1w_2d] puts its weights through [np.asfortranarray], [tv1w_1d]
    and [tvgen] through [force_float_matrix]. *)
Definition fortran_weights (c : entry_call) : bool :=
  match c with Call_tv1w_2d _ _ _ _ _ => true | _ => false end.

(** The entries the solver finds for the weight array [a]. *)
Definition weight_entries (c : entry_call) (a : ndarray) : list float :=
  if fortran_weights c then fortran_entries a else to_float64 (data a).

(** The weight array is already in the form it is converted to. *)
Definition weight_as_is (c : entry_call) (a : ndarray) : bool :=
  is_float64 a && (negb (fortran_weights c) || f_contiguous a).

(** The offset of the entry with index [idx] in a Fortran-contiguous
    buffer of shape [sh]: the first index runs fastest. ([ravel_C] is the
    offset in a C-contiguous one.) *)
Fixpoint ravel_F (sh idx : list Z) : Z :=
  match sh, idx with
  | d :: ds, i :: rest => i + d * ravel_F ds rest
  | _, _ => 0
  end.

(** [idx] indexes an entry of an array of shape [sh]. *)
Definition in_range (sh idx : list Z) : Prop :=
  Forall2 (fun d i => 0 <= i < d) sh idx.

(** [a[idx]] as a double, for an array laid out in its own order. *)
Definition entry_at (a : ndarray) (idx : list Z) : float :=
  nth (Z.to_nat (match order a with
                 | C_order => ravel_C (shape a) idx 0
                 | F_order => ravel_F (shape a) idx
                 end))
      (to_float64 (data a)) F0.

(** [x = [[1, 2], [3, 4]]] in C order, as [np.array] makes it *)
Definition mat22_rows : ndarray :=
  {| shape := [2; 2]; order := C_order; data := F64 [fl 1; fl 2; fl 3; fl 4] |}.

Definition st_rows : state := {| heap := [mat22_rows]; calls := [] |}.

(** [tv1_2d(x, 1)] *)
Definition rows_call : entry_call := Call_tv1_2d 0%nat (SInt 1) 1 0 "dr".

(** ** Rules of the calculus *)

Lemma wp_ret {A : Type} (a : A) st Q : Q (Ok a) st -> wp (ret a) st Q.
Proof. exact (fun H => H). Qed.

Lemma wp_raise {A : Type} e st (Q : result A -> state -> Prop) :
  Q (Raise e) st -> wp (raise e) st Q.
Proof. exact (fun H => H). Qed.

Lemma wp_bind {A B : Type} (m : M A) (k : A -> M B) st Q :
  wp m st (fun r st' =>
             match r with
             | Ok a => wp (k a) st' Q
             | Raise e => Q (Raise e) st'
             end) ->
  wp (bind m k) st Q.
Proof. unfold wp, bind. destruct (m st) as [[a|e] st']; cbn; auto. Qed.

Lemma wp_assert (b : bool) st (Q : result unit -> state -> Prop) :
  (if b then Q (Ok tt) st else Q (Raise AssertionError) st) ->
  wp (assert b) st Q.
Proof. destruct b; exact (fun H => H). Qed.

Lemma wp_deref p st Q :
  match heap st !! p with
  | Some a => Q (Ok a) st
  | None => Q (Raise OutsideModel) st
  end ->
  wp (deref p) st Q.
Proof. unfold wp, deref. destruct (heap st !! p); auto. Qed.

Lemma wp_alloc a st Q :
  Q (Ok (length (heap st))) {| heap := heap st ++ [a]; calls := calls st |} ->
  wp (alloc a) st Q.
Proof. exact (fun H => H). Qed.

Lemma wp_run {A : Type} (m : M A) st Q : wp m st Q -> Q (fst (m st)) (snd (m st)).
Proof. exact (fun H => H). Qed.

Lemma force_float_scalar_run x st :
  force_float_scalar x st = (float_value x, st).
Proof.
  unfold float_value, force_float_scalar, py_float.
  destruct x as [z|f|b]; cbn; try reflexivity.
  destruct (float_of_Z z); reflexivity.
Qed.

Lemma wp_force_float_scalar x st Q :
  Q (float_value x) st -> wp (force_float_scalar x) st Q.
Proof. unfold wp. now rewrite force_float_scalar_run. Qed.

(** ** What a foreign call does to the store *)

Lemma write_buf_other h c v p :
  p ∉ ptr_of c -> write_buf h c v !! p = h !! p.
Proof.
  intros Hp. unfold write_buf.
  destruct c as [[| |q|]|]; try reflexivity.
  destruct (h !! q) as [a|] eqn:E; try reflexivity.
  destruct (data a); try reflexivity.
  apply list_lookup_insert_ne. intros ->. apply Hp. cbn. left.
Qed.

Lemma write_buf_length h c v : length (write_buf h c v) = length h.
Proof.
  unfold write_buf. destruct c as [[| |q|]|]; try reflexivity.
  destruct (h !! q) as [a|]; try reflexivity.
  destruct (data a); try reflexivity. apply length_insert.
Qed.

Lemma write_buf_kind h c v p a :
  h !! p = Some a ->
  exists a', write_buf h c v !! p = Some a' /\ shape a' = shape a
             /\ order a' = order a /\ is_float64 a' = is_float64 a.
Proof.
  intros Hp. unfold write_buf.
  destruct c as [[| |q|]|]; eauto.
  destruct (h !! q) as [b|] eqn:E; eauto.
  destruct (data b) eqn:D; eauto.
  destruct (decide (q = p)) as [->|Hne].
  - rewrite list_lookup_insert_eq by eauto using lookup_lt_Some.
    eexists; split; [reflexivity|]. cbn.
    assert (b = a) by congruence. subst b.
    unfold is_float64. rewrite D. auto.
  - rewrite list_lookup_insert_ne by assumption. eauto.
Qed.

Lemma write_buf_hit h p a old v :
  h !! p = Some a -> data a = F64 old ->
  write_buf h (Some (CPtr p)) v !! p
  = Some {| shape := shape a; order := order a; data := F64 (overwrite old v) |}.
Proof.
  intros Hp Hd. unfold write_buf. rewrite Hp, Hd.
  apply list_lookup_insert_eq. eauto using lookup_lt_Some.
Qed.

Lemma overwrite_all old new : length new = length old -> overwrite old new = new.
Proof.
  intros Hl. unfold overwrite.
  rewrite Hl, skipn_all, app_nil_r, <- Hl. apply firstn_all.
Qed.

Section CallFacts.

Variable o : oracle_t.

Lemma call_calls fn args st :
  calls (snd (_call o fn args st)) = calls st ++ [mk_call fn (map cast_arg args)].
Proof. reflexivity. Qed.

Lemma call_ok fn args st : exists z, fst (_call o fn args st) = Ok z.
Proof. eexists. reflexivity. Qed.

Lemma call_heap_other fn args st p :
  p ∉ call_targets fn args ->
  heap (snd (_call o fn args st)) !! p = heap st !! p.
Proof.
  unfold call_targets, _call, native_run. cbn. intros Hp.
  rewrite not_elem_of_app in Hp. destruct Hp as [H1 H2].
  destruct (sig_info (lib_sig fn)).
  - rewrite write_buf_other by assumption. now rewrite write_buf_other.
  - now rewrite write_buf_other.
Qed.

Lemma call_heap_kind fn args st p a :
  heap st !! p = Some a ->
  exists a', heap (snd (_call o fn args st)) !! p = Some a'
             /\ shape a' = shape a /\ order a' = order a
             /\ is_float64 a' = is_float64 a.
Proof.
  unfold _call, native_run. cbn. intros Hp.
  destruct (sig_info (lib_sig fn)).
  - edestruct write_buf_kind as (a1 & Ha1 & ? & ? & ?); [exact Hp|].
    edestruct write_buf_kind as (a2 & Ha2 & ? & ? & ?); [exact Ha1|].
    exists a2. split; [exact Ha2|]. repeat split; congruence.
  - eapply write_buf_kind, Hp.
Qed.

Lemma wp_call fn args st Q :
  (forall z st',
     st' = snd (_call o fn args st) ->
     calls st' = calls st ++ [mk_call fn (map cast_arg args)] ->
     Q (Ok z) st') ->
  wp (_call o fn args) st Q.
Proof.
  intros H. unfold wp. destruct (call_ok fn args st) as [z ->].
  apply H; auto using call_calls.
Qed.

End CallFacts.

(** ** Symbolic execution *)

Ltac wp_head m :=
  lazymatch m with
  | ?f _ _ _ _ _ _ _ _ => unfold f
  | ?f _ _ _ _ _ _ _ => unfold f
  | ?f _ _ _ _ _ _ => unfold f
  | ?f _ _ _ _ _ => unfold f
  | ?f _ _ _ _ => unfold f
  | ?f _ _ _ => unfold f
  | ?f _ _ => unfold f
  | ?f _ => unfold f
  end.

(** [h !! p = Some ?a] in a store that grew by allocation *)
Ltac find_lookup :=
  lazymatch goal with
  | |- (?l1 ++ [?x]) !! length ?l1 = Some _ =>
      apply list_lookup_middle; reflexivity
  | |- (?l1 ++ _) !! _ = Some _ =>
      apply lookup_app_l_Some; find_lookup
  | |- _ => eassumption
  end.

Ltac wp_lookup :=
  cbn [heap calls];
  lazymatch goal with
  | |- context [match ?h !! ?p with _ => _ end] =>
      first
        [ let a := fresh "a" in
          let H := fresh "H" in
          evar (a : ndarray);
          assert (H : h !! p = Some a) by (subst a; find_lookup);
          subst a; rewrite H; clear H
        | let E := fresh "E" in destruct (h !! p) eqn:E ]
  end.

Lemma shape_astype_float a : shape (astype_float a) = shape a.
Proof. reflexivity. Qed.

Lemma shape_fortran_copy a : shape (fortran_copy a) = shape a.
Proof. reflexivity. Qed.

Lemma shape_zeros sh o : shape (zeros sh o) = sh.
Proof. reflexivity. Qed.

(** case analysis on [x], or rewriting when the context knows [x] *)
Ltac case_on x :=
  match goal with
  | H : x = _ |- _ => rewrite H
  | _ => let E := fresh "E" in destruct x eqn:E
  end.

Ltac wp_step :=
  cbv beta iota; cbn [shape order data lookup list_lookup fst snd];
  rewrite ?shape_astype_float, ?shape_fortran_copy, ?shape_zeros, ?Z.eqb_refl;
  lazymatch goal with
  | |- wp (bind _ _) _ _ => apply wp_bind
  | |- wp (ret _) _ _ => apply wp_ret
  | |- wp (raise _) _ _ => apply wp_raise
  | |- wp (assert _) _ _ => apply wp_assert
  | |- wp (deref _) _ _ => apply wp_deref; wp_lookup
  | |- wp (alloc _) _ _ => apply wp_alloc; cbn [heap calls]
  | |- wp (force_float_scalar _) _ _ => apply wp_force_float_scalar
  | |- wp (_call _ _ _) _ _ =>
      let z := fresh "z" in let st' := fresh "st'" in
      let Hst := fresh "Hst" in let Hc := fresh "Hcalls" in
      apply wp_call; intros z st' Hst Hc; cbn [heap calls] in Hc
  | |- wp (if ?b then _ else _) _ _ => case_on b
  | |- wp (dict_getitem _ _) _ _ =>
      unfold dict_getitem, tvp_methods; cbn [find fst snd]
  | |- wp (match (if ?b then _ else _) with _ => _ end) _ _ => case_on b
  | |- wp (match ?x with _ => _ end) _ _ => case_on x
  | |- wp (let (_, _) := ?x in _) _ _ => destruct x
  | |- (if ?b then _ else _) => case_on b
  | |- match ?r with Ok _ => _ | Raise _ => _ end => case_on r
  | |- wp ?m _ _ => wp_head m
  end.

Ltac prefix_tac :=
  cbn [heap calls];
  first [ exists []; now rewrite app_nil_r
        | eexists; rewrite <- ?app_assoc; reflexivity ].

Ltac len_tac := rewrite ?length_app; cbn [length]; lia.

Ltac use_refs H :=
  unfold valid_refs in H; cbn [refs_of val_refs app] in H;
  repeat match type of H with
         | Forall _ (_ :: _) =>
             let H1 := fresh "Href" in
             let a := fresh "a" in
             apply Forall_cons in H; destruct H as [[a H1] H]
         end;
  clear H.

(** two lookups of one reference see one array *)
Ltac unify_lookups :=
  repeat match goal with
         | H1 : ?h !! ?p = Some ?a, H2 : ?h !! ?p = Some ?b |- _ =>
             rewrite H1 in H2; injection H2 as H2;
             first [ subst b | subst a | rewrite <- H2 in * ]
         end.

Lemma str_in_cons s a l : str_in s (a :: l) = String.eqb s a || str_in s l.
Proof. reflexivity. Qed.

(** a method outside the family that nevertheless passed the assertion *)
Ltac str_absurd :=
  match goal with
  | H : str_in _ _ = true |- _ =>
      cbn [map fst tvp_methods] in H;
      repeat rewrite str_in_cons in H;
      repeat match goal with
             | E : String.eqb ?a ?b = false |- _ =>
                 first [ rewrite E in H
                       | rewrite (String.eqb_sym b a) in H; rewrite E in H ]
             end;
      discriminate H
  end.

(** ** Every run has the shape [entry_post] *)

Lemma entry_post_ok o h cs c y H fn args ax ay st' :
  st' = snd (_call o fn args {| heap := H; calls := cs |}) ->
  (exists ext, H = h ++ ext) ->
  h !! signal_of c = Some ax ->
  H !! y = Some ay ->
  (length h <= y)%nat ->
  is_float64 ay = true ->
  shape ay = (if flat_result c then [size_of (shape ax)] else shape ax) ->
  map cast_arg args !! sig_out (lib_sig fn) = Some (CPtr y) ->
  info_local h fn args y ->
  fn = chosen_solver c ->
  cap_forwarded c fn (map cast_arg args) ->
  entry_post o {| heap := h; calls := cs |} c (Ok y) st'.
Proof.
  intros -> [ext ->] Hx Hy Hle Hf Hs Hout Hinfo Hfn Hcap.
  exists ext, fn, args, ax, ay. repeat split; assumption.
Qed.

(** [1 & d] is 0 or 1, so the last link of the chain in [tvgen] fails. *)
Lemma land_1_ne_2 d : (Z.land 1 d =? 2) = false.
Proof.
  apply Z.eqb_neq. rewrite Z.land_comm.
  change 1 with (Z.ones 1). rewrite Z.land_ones by lia.
  pose proof (Z.mod_pos_bound d (2 ^ 1)). lia.
Qed.

Ltac dr_absurd :=
  match goal with
  | H : (Z.land 1 _ =? 2) = true |- _ =>
      rewrite land_1_ne_2 in H; discriminate H
  end.

Ltac solver_tac :=
  cbn [chosen_solver];
  repeat match goal with
         | H : (_ =? _) = true |- _ => apply Z.eqb_eq in H
         end;
  subst;
  repeat match goal with
         | E : String.eqb _ _ = _ |- _ => rewrite E
         | E : Z.eqb _ _ = _ |- _ => rewrite E
         | E : Z.of_nat _ = _ |- _ => rewrite E
         end;
  reflexivity.

Ltac cap_tac :=
  unfold cap_forwarded; cbn [lib_sig sig_maxit cap_of];
  let i := fresh "i" in let Hi := fresh "Hi" in
  intros i Hi;
  first [ discriminate Hi
        | injection Hi as <-; eexists; split; reflexivity ].

Ltac info_tac :=
  unfold info_local; cbn [lib_sig sig_info];
  first [ exact I | eexists; split; [reflexivity | split; len_tac] ].

Ltac post_raise :=
  cbn [entry_post heap calls]; split; [reflexivity | prefix_tac].

Ltac post_ok :=
  lazymatch goal with
  | Hst : ?st' = snd (_call _ _ _ _) |- entry_post _ _ _ (Ok _) ?st' =>
      eapply entry_post_ok;
      [ exact Hst | prefix_tac | cbn [signal_of]; find_lookup | find_lookup
      | len_tac | reflexivity | reflexivity | reflexivity | info_tac
      | solver_tac | cap_tac ]
  end.

Ltac entry_tac :=
  repeat wp_step; cbv beta iota;
  first [ post_raise | dr_absurd | str_absurd | post_ok ].

Lemma entry_post_holds o c st :
  valid_refs (heap st) c -> wp (run_entry o c) st (entry_post o st c).
Proof.
  destruct st as [h cs]. cbn [heap].
  destruct c; intros Hv; cbn [run_entry].
  8: destruct ws, ps.
  all: use_refs Hv.
  all: entry_tac.
Qed.

(** ** Conversions *)

(** C10: [force_float_scalar x] is [float(x)], on the inputs [float]
    accepts and on those it refuses alike; [force_float_matrix] always
    yields a float64 array, hands a float64 array back as it is (same
    object, store untouched), and so applying it twice is applying it
    once. *)
Theorem force_float_idempotent :
  (forall x st, force_float_scalar x st = py_float x st) /\
  (forall st p a, heap st !! p = Some a ->
     exists q st1 a1,
       force_float_matrix (VArr p) st = (Ok q, st1) /\
       heap st1 !! q = Some a1 /\ is_float64 a1 = true /\
       force_float_matrix (VArr q) st1 = (Ok q, st1) /\
       (is_float64 a = true -> q = p /\ st1 = st)).
Proof.
  split.
  - intros [z|f|b] st; reflexivity.
  - intros [h cs] p a Hp. cbn in Hp.
    unfold force_float_matrix, bind, deref. cbn. rewrite Hp.
    destruct (is_float64 a) eqn:Ef; cbn.
    + exists p, {| heap := h; calls := cs |}, a. cbn.
      rewrite Hp, Ef. cbn. repeat (split || intro); reflexivity.
    + exists (length h), {| heap := h ++ [astype_float a]; calls := cs |},
        (astype_float a). cbn.
      rewrite list_lookup_middle by reflexivity. cbn.
      repeat split; try reflexivity; discriminate.
Qed.

(** ** The frame of a call *)



(** ** Two runs side by side *)

Lemma wp2_bind_same {A B : Type} (m : M A) (k1 k2 : A -> M B) st Q :
  wp m st (fun r st' =>
             match r with
             | Ok a => wp2 (k1 a) (k2 a) st' Q
             | Raise e => Q (Raise e, st') (Raise e, st')
             end) ->
  wp2 (bind m k1) (bind m k2) st Q.
Proof. unfold wp, wp2, bind. destruct (m st) as [[a|e] st']; auto. Qed.

Lemma wp2_bind {A B : Type} (m1 m2 : M A) (k : A -> M B) st Q :
  wp2 m1 m2 st (fun rs1 rs2 => Q (continue k rs1) (continue k rs2)) ->
  wp2 (bind m1 k) (bind m2 k) st Q.
Proof.
  unfold wp2, bind, continue.
  destruct (m1 st) as [[]?], (m2 st) as [[]?]; auto.
Qed.

Lemma call_run o fn args st :
  _call o fn args st
  = (Ok (nr_status (o fn (map cast_arg args) (heap st))), snd (_call o fn args st)).
Proof. reflexivity. Qed.

Lemma wp2_call o1 o2 fn args st Q :
  Q (Ok (nr_status (o1 fn (map cast_arg args) (heap st))), snd (_call o1 fn args st))
    (Ok (nr_status (o2 fn (map cast_arg args) (heap st))), snd (_call o2 fn args st)) ->
  wp2 (_call o1 fn args) (_call o2 fn args) st Q.
Proof. exact (fun H => H). Qed.

(** The output buffer after a call depends on the solver through the
    solution it leaves only, when the info buffer is another array. *)
Lemma call_out_same o1 o2 fn args st y :
  same_solution o1 o2 ->
  map cast_arg args !! sig_out (lib_sig fn) = Some (CPtr y) ->
  match sig_info (lib_sig fn) with
  | Some i => exists q, map cast_arg args !! i = Some (CPtr q) /\ q <> y
  | None => True
  end ->
  heap (snd (_call o1 fn args st)) !! y = heap (snd (_call o2 fn args st)) !! y.
Proof.
  intros Hs Hout Hinfo. unfold _call, native_run. cbn [heap calls snd].
  rewrite (Hs fn (map cast_arg args) (heap st)).
  destruct (sig_info (lib_sig fn)) as [i|]; [|reflexivity].
  destruct Hinfo as (q & -> & Hq).
  assert (Hy : y ∉ ptr_of (Some (CPtr q))).
  { cbn. intros Hin. apply list_elem_of_singleton in Hin. congruence. }
  etransitivity; [apply write_buf_other, Hy|].
  symmetry. apply write_buf_other, Hy.
Qed.

Ltac out_tac :=
  lazymatch goal with
  | Hs : same_solution _ _ |- returned _ = returned _ =>
      unfold returned; cbn [fst snd continue ret];
      first [ reflexivity
            | do 2 f_equal; apply (call_out_same _ _ _ _ _ _ Hs);
              [ reflexivity
              | cbn [lib_sig sig_info];
                first [ exact I | eexists; split; [reflexivity | len_tac] ] ] ]
  end.

Ltac step2 :=
  cbv beta iota; cbn [continue];
  lazymatch goal with
  | |- wp2 (bind _ _) (bind _ _) _ _ =>
      first [ apply wp2_bind_same | apply wp2_bind ]
  | |- wp2 (if ?b then _ else _) (if ?b then _ else _) _ _ => case_on b
  | |- wp2 (let (_, _) := ?x in _) (let (_, _) := ?x in _) _ _ => destruct x
  | |- wp2 (_call _ _ _) (_call _ _ _) _ _ => apply wp2_call
  | |- wp2 (tv1_1d _ _ _ _ _) _ _ _ => unfold tv1_1d
  | |- wp2 (tv1w_1d _ _ _ _ _) _ _ _ => unfold tv1w_1d
  | |- wp2 (tv2_1d _ _ _ _) _ _ _ => unfold tv2_1d
  | |- wp2 (tvp_1d _ _ _ _ _ _) _ _ _ => unfold tvp_1d
  | |- wp2 (tv1_2d _ _ _ _ _ _) _ _ _ => unfold tv1_2d
  | |- wp2 (tv1w_2d _ _ _ _ _ _) _ _ _ => unfold tv1w_2d
  | |- wp2 (tvp_2d _ _ _ _ _ _ _ _) _ _ _ => unfold tvp_2d
  | |- wp2 (tvgen _ _ _ _ _ _ _) _ _ _ => unfold tvgen
  | |- wp2 (ret _) (ret _) _ _ => unfold wp2, ret
  | |- _ => wp_step
  end.

(** What the caller gets back is the same for two solvers that leave the
    same solution, whatever diagnostics each of them reports. *)
Lemma returned_same o1 o2 c st :
  valid_refs (heap st) c ->
  same_solution o1 o2 ->
  returned (run_entry o1 c st) = returned (run_entry o2 c st).
Proof.
  intros Hv Hs.
  change (wp2 (run_entry o1 c) (run_entry o2 c) st
            (fun rs1 rs2 => returned rs1 = returned rs2)).
  destruct st as [h cs]. cbn [heap] in Hv.
  destruct c; cbn [run_entry].
  8: destruct ws, ps.
  all: use_refs Hv.
  all: repeat step2.
  all: out_tac.
Qed.

(** C2 (as amended): what an entry point returns is the one array it
    handed to the solver as output buffer; the info buffer, where the
    solver has one, is another array, created inside the call, which is
    not part of what is returned: a solver that leaves the same solution
    and reports other diagnostics gives the caller the same value. *)
Theorem entry_returns_solution_only o c st y :
  valid_refs (heap st) c ->
  fst (run_entry o c st) = Ok y ->
  (exists fn args_m,
     calls (snd (run_entry o c st)) = calls st ++ [mk_call fn args_m] /\
     args_m !! sig_out (lib_sig fn) = Some (CPtr y) /\
     forall i, sig_info (lib_sig fn) = Some i ->
       exists q, args_m !! i = Some (CPtr q) /\ q <> y /\ heap st !! q = None) /\
  (forall o', same_solution o o' ->
     returned (run_entry o' c st) = returned (run_entry o c st)).
Proof.
  intros Hv Hr. split.
  - pose proof (entry_post_holds o c st Hv) as HP.
    unfold wp in HP.
    destruct (run_entry o c st) as [[y'|e] st']; cbn [fst snd] in *;
      [|discriminate].
    injection Hr as ->.
    destruct HP as (ext & fn & args & ax & ay & -> & Hx & Hy & Hle & Hf & Hs
                    & Hout & Hinfo & _ & _).
    exists fn, (map cast_arg args). split; [reflexivity|]. split; [exact Hout|].
    intros i Hi. unfold info_local in Hinfo. rewrite Hi in Hinfo.
    destruct Hinfo as (q & Hq & Hne & Hlen).
    exists q. repeat split; try assumption. now apply lookup_ge_None.
  - intros o' Hs. symmetry. now apply returned_same.
Qed.

(** ** The log of foreign calls *)

(** A call that raises has invoked no solver. *)
Lemma raise_without_call o c st e :
  valid_refs (heap st) c ->
  fst (run_entry o c st) = Raise e ->
  calls (snd (run_entry o c st)) = calls st.
Proof.
  intros Hv. pose proof (entry_post_holds o c st Hv) as HP.
  unfold wp in HP. destruct (run_entry o c st) as [[y|e'] st']; cbn [fst snd] in *;
    [discriminate|].
  intros _. apply HP.
Qed.

(** A call that returns has invoked exactly the solver of the dispatch
    table, and has handed it the caller's [max_iters] wherever that solver
    takes an iteration cap. *)
Lemma return_after_one_call o c st y :
  valid_refs (heap st) c ->
  fst (run_entry o c st) = Ok y ->
  exists args_m,
    calls (snd (run_entry o c st)) = calls st ++ [mk_call (chosen_solver c) args_m]
    /\ cap_forwarded c (chosen_solver c) args_m.
Proof.
  intros Hv. pose proof (entry_post_holds o c st Hv) as HP.
  unfold wp in HP. destruct (run_entry o c st) as [[y'|e] st']; cbn [fst snd] in *;
    [|discriminate].
  intros _.
  destruct HP as (ext & fn & args & ax & ay & -> & _ & _ & _ & _ & _ & _ & _
                  & -> & Hcap).
  exists (map cast_arg args). split; [reflexivity | exact Hcap].
Qed.

(** [tvgen] never takes the Douglas-Rachford path: two terms go to
    [PD2_TV], any other number of terms to [PD_TV]. *)
Lemma tvgen_never_douglas_rachford o x ws ds ps n_threads max_iters st :
  valid_refs (heap st) (Call_tvgen x ws ds ps n_threads max_iters) ->
  Forall (fun c => nc_fn c <> DR2_TV)
    (new_calls st (tvgen o x ws ds ps n_threads max_iters st)).
Proof.
  intros Hv. unfold new_calls.
  destruct (fst (tvgen o x ws ds ps n_threads max_iters st)) as [y|e] eqn:E.
  - destruct (return_after_one_call o _ st y Hv E) as (args_m & Hc & _).
    cbn [run_entry] in Hc. rewrite Hc, drop_app_length.
    constructor; [|constructor]. cbn [nc_fn chosen_solver].
    destruct (Z.of_nat (length ds) =? 2); discriminate.
  - pose proof (raise_without_call o _ st e Hv E) as Hc.
    cbn [run_entry] in Hc. rewrite Hc, drop_all. constructor.
Qed.

(** The solvers of [tvp_1d] take no iteration cap. *)
Lemma tvp_1d_solver_has_no_cap x w p method max_iters :
  sig_maxit (lib_sig (chosen_solver (Call_tvp_1d x w p method max_iters))) = None.
Proof.
  cbn [chosen_solver].
  destruct (String.eqb "gp" method), (String.eqb "fw" method); reflexivity.
Qed.

(** The other four entry points with a [max_iters] argument pass it on. *)
Lemma max_iters_forwarded o c st y max_iters :
  valid_refs (heap st) c ->
  cap_of c = Some max_iters ->
  is_tvp_1d c = false ->
  fst (run_entry o c st) = Ok y ->
  exists args_m i,
    calls (snd (run_entry o c st)) = calls st ++ [mk_call (chosen_solver c) args_m]
    /\ sig_maxit (lib_sig (chosen_solver c)) = Some i
    /\ args_m !! i = Some (CNum (SInt max_iters)).
Proof.
  intros Hv Hcap Hne E.
  destruct (return_after_one_call o c st y Hv E) as (args_m & Hc & Hf).
  exists args_m.
  assert (Hi : exists i, sig_maxit (lib_sig (chosen_solver c)) = Some i).
  { destruct c; try discriminate Hcap; cbn [chosen_solver].
    - discriminate Hne.
    - destruct (String.eqb method "yang"), (String.eqb method "dr"),
        (String.eqb method "pd"); eauto.
    - eauto.
    - eauto.
    - destruct (Z.of_nat (length ds) =? 2); eauto. }
  destruct Hi as [i Hi]. exists i. split; [exact Hc|]. split; [exact Hi|].
  destruct (Hf i Hi) as (mi & Hmi & Harg). congruence.
Qed.

(** ** Comparisons of doubles *)

Lemma SFcompare_antisym a b :
  SFcompare b a = option_map CompOpp (SFcompare a b).
Proof.
  destruct a as [sa|sa| |sa ma ea], b as [sb|sb| |sb mb eb]; cbn;
    try reflexivity; try (destruct sa; reflexivity);
    try (destruct sb; reflexivity); try (destruct sa, sb; reflexivity).
  destruct sa, sb; cbn; try reflexivity;
    rewrite (Z.compare_antisym ea eb); destruct (ea ?= eb); cbn;
    try reflexivity; rewrite (Pos.compare_cont_antisym ma mb); cbn;
    now rewrite ?CompOpp_involutive.
Qed.

Lemma SFltb_not_SFleb a b : SFltb a b = true -> SFleb b a = false.
Proof.
  unfold SFltb, SFleb. rewrite (SFcompare_antisym a b).
  destruct (SFcompare a b) as [[]|]; cbn; congruence.
Qed.

Lemma scalar_lt0_not_ge0 s : scalar_lt0 s = true -> scalar_ge0 s = false.
Proof.
  destruct s as [z|f|b]; cbn.
  - intros H. apply Z.ltb_lt in H. apply Z.leb_gt. exact H.
  - apply SFltb_not_SFleb.
  - discriminate.
Qed.

Lemma scalar_lt1_not_ge1 s : scalar_lt1 s = true -> scalar_ge1 s = false.
Proof.
  destruct s as [z|f|b]; cbn.
  - intros H. apply Z.ltb_lt in H. apply Z.leb_gt. lia.
  - apply SFltb_not_SFleb.
  - now destruct b.
Qed.

Lemma has_negative_not_all_ge0 b : has_negative b = true -> all_ge0 b = false.
Proof.
  destruct b as [l|l]; cbn; intros H.
  - apply existsb_exists in H as (f & Hin & Hf).
    apply not_true_is_false. intros Hall.
    rewrite forallb_forall in Hall. specialize (Hall f Hin).
    apply SFltb_not_SFleb in Hf. congruence.
  - apply existsb_exists in H as (z & Hin & Hz).
    apply not_true_is_false. intros Hall.
    rewrite forallb_forall in Hall. specialize (Hall z Hin).
    apply Z.ltb_lt in Hz. apply Z.leb_le in Hall. lia.
Qed.

(** ** Rejections *)

Ltac reject_tac := repeat wp_step; cbv beta iota; reflexivity.

(** Seven of the eight entry points turn a negative weight or a norm
    below 1 away with a failed assertion, before any solver runs. *)
Lemma siblings_reject_negative o c st :
  valid_refs (heap st) c ->
  is_tvgen c = false ->
  negative_input (heap st) c ->
  fst (run_entry o c st) = Raise AssertionError
  /\ calls (snd (run_entry o c st)) = calls st.
Proof.
  intros Hv Hc Hn.
  assert (E : fst (run_entry o c st) = Raise AssertionError).
  { clear Hv. apply (wp_run (run_entry o c) st (fun r _ => r = Raise AssertionError)).
    destruct st as [h cs]. cbn [heap] in *.
    destruct c; try discriminate Hc; cbn [run_entry negative_input] in *.
    - apply scalar_lt0_not_ge0 in Hn. reject_tac.
    - destruct Hn as (aw & Hw & Hn). apply has_negative_not_all_ge0 in Hn.
      reject_tac.
    - apply scalar_lt0_not_ge0 in Hn. reject_tac.
    - destruct Hn as [Hn|Hn];
        [apply scalar_lt0_not_ge0 in Hn | apply scalar_lt1_not_ge1 in Hn];
        reject_tac.
    - apply scalar_lt0_not_ge0 in Hn. reject_tac.
    - destruct Hn as (ac & ar & Hwc & Hwr & [Hn|Hn]);
        apply has_negative_not_all_ge0 in Hn; reject_tac.
    - destruct Hn as [Hn|[Hn|[Hn|Hn]]];
        try apply scalar_lt0_not_ge0 in Hn; try apply scalar_lt1_not_ge1 in Hn;
        reject_tac. }
  split; [exact E|]. eapply raise_without_call; eassumption.
Qed.

(** Four of the five entry points with a method selector turn a method
    outside their family away with a failed assertion. *)
Lemma siblings_reject_unknown_method o c st method family :
  valid_refs (heap st) c ->
  is_tv1w_1d c = false ->
  method_of c = Some (method, family) ->
  str_in method family = false ->
  fst (run_entry o c st) = Raise AssertionError
  /\ calls (snd (run_entry o c st)) = calls st.
Proof.
  intros Hv Hc Hm Hf.
  assert (E : fst (run_entry o c st) = Raise AssertionError).
  { clear Hv. apply (wp_run (run_entry o c) st (fun r _ => r = Raise AssertionError)).
    destruct st as [h cs].
    destruct c; try discriminate Hc; try discriminate Hm;
      cbn [run_entry method_of] in *; injection Hm as <- <-;
      try change ["gp"; "fw"; "gpfw"] with (map fst tvp_methods) in Hf;
      reject_tac. }
  split; [exact E|]. eapply raise_without_call; eassumption.
Qed.

(** ** The contract of [tv1w_2d] *)

Lemma valid_refs_intro h c :
  (forall p, p ∈ refs_of c -> is_Some (h !! p)) -> valid_refs h c.
Proof. intros H. apply Forall_forall. exact H. Qed.

Ltac refs_tac :=
  apply valid_refs_intro; cbn [refs_of val_refs app];
  let p := fresh "p" in let Hp := fresh "Hp" in
  intros p Hp;
  repeat (apply elem_of_cons in Hp as [->|Hp]; [eexists; eassumption|]);
  now apply elem_of_nil in Hp.

(** C6: for an M x N matrix [x], [tv1w_2d] fails an assertion, without
    having invoked the solver, whenever [w_col.shape] is not (M-1, N),
    [w_row.shape] is not (M, N-1), or some weight entry is negative; when
    the shapes are right and every weight entry is [>= 0] it goes on to
    exactly one call of the weighted Douglas-Rachford solver [DR2L1W_TV],
    with M, N, the three arrays, the output buffer, [n_threads],
    [max_iters] and the info buffer. (A NaN entry is neither negative nor
    [>= 0]; the assertion [np.all(w >= 0)] turns it away too.) *)
Theorem tv1w_2d_contract o x w_col w_row max_iters n_threads st ax ac ar m n :
  heap st !! x = Some ax -> shape ax = [m; n] ->
  heap st !! w_col = Some ac -> heap st !! w_row = Some ar ->
  ((shape ac <> [m - 1; n] \/ shape ar <> [m; n - 1]
    \/ has_negative (data ac) = true \/ has_negative (data ar) = true) ->
   fst (tv1w_2d o x w_col w_row max_iters n_threads st) = Raise AssertionError
   /\ calls (snd (tv1w_2d o x w_col w_row max_iters n_threads st)) = calls st)
  /\
  (shape ac = [m - 1; n] -> shape ar = [m; n - 1] ->
   all_ge0 (data ac) = true -> all_ge0 (data ar) = true ->
   exists y px pc pr pinfo,
     fst (tv1w_2d o x w_col w_row max_iters n_threads st) = Ok y /\
     calls (snd (tv1w_2d o x w_col w_row max_iters n_threads st))
     = calls st ++
       [mk_call DR2L1W_TV
          [CNum (SInt m); CNum (SInt n); CPtr px; CPtr pc; CPtr pr; CPtr y;
           CNum (SInt n_threads); CNum (SInt max_iters); CPtr pinfo]]).
Proof.
  intros Hx Hs Hc Hr.
  assert (Hv : valid_refs (heap st) (Call_tv1w_2d x w_col w_row max_iters n_threads))
    by refs_tac.
  split.
  - intros Hbad.
    assert (E : fst (tv1w_2d o x w_col w_row max_iters n_threads st)
                = Raise AssertionError).
    { clear Hv.
      apply (wp_run (tv1w_2d o x w_col w_row max_iters n_threads) st
               (fun r _ => r = Raise AssertionError)).
      destruct st as [h cs]. cbn [heap] in *.
      destruct Hbad as [Hb|[Hb|[Hb|Hb]]].
      + apply (bool_decide_eq_false_2 _) in Hb. reject_tac.
      + apply (bool_decide_eq_false_2 _) in Hb. reject_tac.
      + apply has_negative_not_all_ge0 in Hb. reject_tac.
      + apply has_negative_not_all_ge0 in Hb. reject_tac. }
    split; [exact E|].
    apply (raise_without_call o (Call_tv1w_2d x w_col w_row max_iters n_threads)
             st AssertionError Hv E).
  - intros Hsc Hsr Hgc Hgr.
    apply (wp_run (tv1w_2d o x w_col w_row max_iters n_threads) st
             (fun r st' => exists y px pc pr pinfo,
                r = Ok y /\
                calls st' = calls st ++
                  [mk_call DR2L1W_TV
                     [CNum (SInt m); CNum (SInt n); CPtr px; CPtr pc; CPtr pr;
                      CPtr y; CNum (SInt n_threads); CNum (SInt max_iters);
                      CPtr pinfo]])).
    destruct st as [h cs]. cbn [heap calls] in *.
    apply (bool_decide_eq_true_2 _) in Hsc, Hsr.
    repeat wp_step; cbv beta iota; repeat eexists; exact Hcalls.
Qed.

(** ** [tvgen] and Python lists *)

Lemma tvgen_raises_without_arrays o x ws ds ps n_threads max_iters st :
  valid_refs (heap st) (Call_tvgen x ws ds ps n_threads max_iters) ->
  ~ (is_array ws /\ is_array ps) ->
  exists e, fst (tvgen o x ws ds ps n_threads max_iters st) = Raise e.
Proof.
  intros Hv Hn.
  apply (wp_run (tvgen o x ws ds ps n_threads max_iters) st
           (fun r _ => exists e, r = Raise e)).
  destruct st as [h cs]. cbn [heap] in *.
  destruct ws as [sw|lw|pw|], ps as [sp|lp|pp|];
    try (exfalso; apply Hn; split; eexists; reflexivity);
    use_refs Hv; repeat wp_step; cbv beta iota; eexists; reflexivity.
Qed.

Lemma seq_len_eqb h v n :
  seq_len h v = Some n ->
  match v with
  | VSeq l => (Z.of_nat (length l) =? n) = true
  | VArr p => exists a rest, h !! p = Some a /\ shape a = n :: rest
  | _ => False
  end.
Proof.
  destruct v as [s|l|p|]; cbn; try discriminate.
  - intros [= <-]. apply Z.eqb_refl.
  - destruct (h !! p) as [a|]; [|discriminate].
    destruct (shape a) as [|d rest] eqn:E; [discriminate|].
    intros [= <-]. eauto.
Qed.

Lemma tvgen_list_attribute_error o x ws ds ps n_threads max_iters st :
  valid_refs (heap st) (Call_tvgen x ws ds ps n_threads max_iters) ->
  is_list ws \/ is_list ps ->
  seq_len (heap st) ws = Some (Z.of_nat (length ds)) ->
  seq_len (heap st) ps = Some (Z.of_nat (length ds)) ->
  1 <= n_threads -> 0 <= max_iters ->
  fst (tvgen o x ws ds ps n_threads max_iters st) = Raise (AttributeError "dtype").
Proof.
  intros Hv Hl Hws Hps Hnt Hmi.
  apply (wp_run (tvgen o x ws ds ps n_threads max_iters) st
           (fun r _ => r = Raise (AttributeError "dtype"))).
  destruct st as [h cs]. cbn [heap] in *.
  apply Z.leb_le in Hnt, Hmi.
  apply seq_len_eqb in Hws, Hps.
  destruct ws as [sw|lw|pw|], ps as [sp|lp|pp|];
    try contradiction; try (destruct Hl; contradiction).
  - assert (Hwp : (Z.of_nat (length lw) =? Z.of_nat (length lp)) = true).
    { apply Z.eqb_eq in Hws, Hps. apply Z.eqb_eq. congruence. }
    use_refs Hv. reject_tac.
  - destruct Hps as (ap & rest & Hp & Hsp).
    use_refs Hv. unify_lookups. reject_tac.
  - destruct Hws as (aw & rest & Hw & Hsw).
    use_refs Hv. unify_lookups. rewrite Z.eqb_sym in Hps. reject_tac.
Qed.

(** C9: a call of [tvgen] with a Python list for [ws] or [ps] raises
    without having invoked a solver; when the call is otherwise in order
    (the lengths agree, [n_threads >= 1], [max_iters >= 0]) what it raises
    is the AttributeError of [force_float_matrix] reading [.dtype]. A
    call of [tvgen] that returns was given numpy arrays for both. *)
Theorem tvgen_needs_arrays o x ws ds ps n_threads max_iters st :
  valid_refs (heap st) (Call_tvgen x ws ds ps n_threads max_iters) ->
  (is_list ws \/ is_list ps ->
     (exists e, fst (tvgen o x ws ds ps n_threads max_iters st) = Raise e)
     /\ calls (snd (tvgen o x ws ds ps n_threads max_iters st)) = calls st
     /\ (seq_len (heap st) ws = Some (Z.of_nat (length ds)) ->
         seq_len (heap st) ps = Some (Z.of_nat (length ds)) ->
         1 <= n_threads -> 0 <= max_iters ->
         fst (tvgen o x ws ds ps n_threads max_iters st)
         = Raise (AttributeError "dtype")))
  /\
  (forall y, fst (tvgen o x ws ds ps n_threads max_iters st) = Ok y ->
             is_array ws /\ is_array ps).
Proof.
  intros Hv. split.
  - intros Hl.
    assert (Hn : ~ (is_array ws /\ is_array ps)).
    { intros [[pw ->] [pp ->]]. destruct Hl as [[]|[]]. }
    destruct (tvgen_raises_without_arrays o x ws ds ps n_threads max_iters st Hv Hn)
      as [e He].
    split; [eauto|]. split.
    + apply (raise_without_call o (Call_tvgen x ws ds ps n_threads max_iters)
               st e Hv He).
    + intros. now apply tvgen_list_attribute_error.
  - intros y Hy.
    destruct ws as [sw|lw|pw|], ps as [sp|lp|pp|];
      try (split; eexists; reflexivity);
      exfalso;
      (edestruct (tvgen_raises_without_arrays o) as [e He];
       [exact Hv | | rewrite He in Hy; discriminate Hy]);
      intros [[? Ha] [? Hb]]; discriminate.
Qed.

(** ** Zero weights *)

Lemma scalar_is0_ge0 s : scalar_is0 s = true -> scalar_ge0 s = true.
Proof.
  destruct s as [z|f|b]; cbn; try reflexivity.
  - intros H. apply Z.eqb_eq in H. subst. reflexivity.
  - unfold SFeqb, SFleb. rewrite (SFcompare_antisym f F0).
    destruct (SFcompare f F0) as [[]|]; cbn; congruence.
Qed.

Lemma float_value_zero s :
  scalar_is0 s = true ->
  exists a, float_value s = Ok a /\ scalar_is0 a = true.
Proof.
  destruct s as [z|f|b]; cbn.
  - intros H. apply Z.eqb_eq in H. subst. eexists. split; reflexivity.
  - intros H. exists (SFloat f). split; [reflexivity | exact H].
  - destruct b; [discriminate|]. intros _. eexists. split; reflexivity.
Qed.

Lemma all_zero_ge0 b : all_zero b = true -> all_ge0 b = true.
Proof.
  destruct b as [l|l]; cbn; intros H; apply forallb_forall; intros v Hin;
    rewrite forallb_forall in H; specialize (H v Hin).
  - apply (scalar_is0_ge0 (SFloat v)). exact H.
  - apply Z.eqb_eq in H. subst. reflexivity.
Qed.

Lemma all_zero_to_float64 b :
  all_zero b = true -> forallb (fun f => SFeqb f F0) (to_float64 b) = true.
Proof.
  destruct b as [l|l]; cbn; [trivial|].
  intros H. apply forallb_forall. intros f Hin.
  apply in_map_iff in Hin as (z & <- & Hz).
  rewrite forallb_forall in H. specialize (H z Hz).
  apply Z.eqb_eq in H. subst. reflexivity.
Qed.

Lemma all_zero_fortran_entries a :
  all_zero (data a) = true ->
  forallb (fun f => SFeqb f F0) (fortran_entries a) = true.
Proof.
  intros H. apply all_zero_to_float64 in H. unfold fortran_entries.
  destruct (f_contiguous a); [exact H|].
  unfold relayout_F. apply forallb_forall. intros f Hin.
  apply in_map_iff in Hin as (k & <- & _).
  rewrite forallb_forall in H.
  destruct (nth_in_or_default (c_offset (shape a) k) (to_float64 (data a)) F0)
    as [Hn|Hn].
  - apply H, Hn.
  - rewrite Hn. reflexivity.
Qed.

Lemma zero_array_self a :
  all_zero (data a) = true -> is_float64 a = true -> zero_array a.
Proof.
  unfold zero_array, is_float64. destruct (data a) as [l|l]; [|discriminate].
  intros H _. exists l. split; [reflexivity | exact H].
Qed.

Lemma zero_array_astype a : all_zero (data a) = true -> zero_array (astype_float a).
Proof.
  intros H. eexists. split; [reflexivity|]. now apply all_zero_to_float64.
Qed.

Lemma zero_array_fortran_copy a :
  all_zero (data a) = true -> zero_array (fortran_copy a).
Proof.
  intros H. eexists. split; [reflexivity|]. now apply all_zero_fortran_entries.
Qed.

Lemma weight_is0_ptr h p a :
  h !! p = Some a -> zero_array a -> weight_is0 h (CPtr p) = true.
Proof. intros Hp (l & Hd & Hz). cbn. now rewrite Hp, Hd. Qed.

(** ** Entries and extents *)

Lemma length_to_float64 b : length (to_float64 b) = buffer_length b.
Proof. destruct b; cbn; [reflexivity | apply length_map]. Qed.

Lemma length_fortran_entries a :
  length (fortran_entries a) = buffer_length (data a).
Proof.
  unfold fortran_entries, relayout_F.
  destruct (f_contiguous a); [|rewrite length_map, length_seq];
    apply length_to_float64.
Qed.

Lemma both_contiguous_1d d : both_contiguous [d] = true.
Proof.
  unfold both_contiguous. cbn. destruct (negb (d =? 1)); cbn;
    now rewrite orb_true_r.
Qed.

Lemma fortran_entries_1d a :
  length (shape a) = 1%nat -> fortran_entries a = to_float64 (data a).
Proof.
  intros H. unfold fortran_entries, f_contiguous.
  destruct (shape a) as [|d [|]]; try discriminate.
  destruct (order a); [|reflexivity]. now rewrite both_contiguous_1d.
Qed.

Lemma entries_1d_float a :
  length (shape a) = 1%nat -> negb (is_float64 a) = false ->
  data a = F64 (fortran_entries a).
Proof.
  intros H Hf. rewrite (fortran_entries_1d a H).
  unfold is_float64 in Hf. destruct (data a); [reflexivity | discriminate].
Qed.

Lemma entries_1d_astype a :
  length (shape a) = 1%nat -> data (astype_float a) = F64 (fortran_entries a).
Proof. intros H. now rewrite (fortran_entries_1d a H). Qed.

Lemma entries_contiguous a :
  is_float64 a && f_contiguous a = true -> data a = F64 (fortran_entries a).
Proof.
  intros H. apply andb_true_iff in H as [Hf Hc].
  unfold fortran_entries. rewrite Hc.
  unfold is_float64 in Hf. destruct (data a); [reflexivity | discriminate].
Qed.

(** ** A foreign call with zero weights *)

Lemma call_identity o fn args st y x' ax' l ay old :
  map cast_arg args !! sig_out (lib_sig fn) = Some (CPtr y) ->
  map cast_arg args !! sig_in (lib_sig fn) = Some (CPtr x') ->
  heap st !! x' = Some ax' -> data ax' = F64 l ->
  heap st !! y = Some ay -> data ay = F64 old -> length l = length old ->
  Forall (fun i => exists c, map cast_arg args !! i = Some c
                             /\ weight_is0 (heap st) c = true)
         (sig_w (lib_sig fn)) ->
  match sig_info (lib_sig fn) with
  | Some i => exists q, map cast_arg args !! i = Some (CPtr q) /\ q <> y
  | None => True
  end ->
  heap (snd (_call o fn args st)) !! y
  = Some {| shape := shape ay; order := order ay; data := F64 l |}.
Proof.
  intros Hout Hin Hx Hdx Hy Hdy Hlen Hw Hinfo.
  unfold _call, native_run. cbn [heap calls snd].
  assert (Hsig : input_signal (heap st) fn (map cast_arg args) = Some l).
  { unfold input_signal. now rewrite Hin, Hx, Hdx. }
  assert (Hz : zero_weights (heap st) fn (map cast_arg args) = true).
  { unfold zero_weights. apply forallb_forall. intros i Hi.
    rewrite Forall_forall in Hw. apply list_elem_of_In in Hi.
    destruct (Hw i Hi) as (c & -> & Hc). exact Hc. }
  rewrite Hsig, Hz, Hout.
  assert (Hhit : write_buf (heap st) (Some (CPtr y)) l !! y
                 = Some {| shape := shape ay; order := order ay; data := F64 l |}).
  { rewrite (write_buf_hit _ _ _ _ _ Hy Hdy). now rewrite overwrite_all. }
  destruct (sig_info (lib_sig fn)) as [i|]; [|exact Hhit].
  destruct Hinfo as (q & -> & Hq).
  rewrite write_buf_other; [exact Hhit|].
  cbn. intros Hin'. apply list_elem_of_singleton in Hin'. congruence.
Qed.

Lemma flat_shape a : length (shape a) = 1%nat -> [size_of (shape a)] = shape a.
Proof.
  destruct (shape a) as [|d [|]]; try discriminate.
  intros _. cbn. now rewrite Z.mul_1_r.
Qed.

Lemma rank2_shape a :
  length (shape a) = 2%nat ->
  exists m n, shape a !! 0%nat = Some m /\ shape a !! 1%nat = Some n.
Proof.
  destruct (shape a) as [|m [|n [|]]]; try discriminate. intros _. eauto.
Qed.

(** ** Zero weight is the identity *)

Ltac weight_tac :=
  cbn [cast_arg];
  first
    [ cbn [weight_is0 forallb];
      repeat match goal with H : scalar_is0 _ = true |- _ => rewrite H end;
      reflexivity
    | eapply weight_is0_ptr;
      [ find_lookup
      | first [ apply zero_array_astype; assumption
              | apply zero_array_fortran_copy; assumption
              | apply zero_array_self; [assumption|];
                match goal with
                | H : negb (is_float64 ?a) = false |- is_float64 ?a = true =>
                    now apply negb_false_iff in H
                | H : is_float64 ?a && _ = true |- is_float64 ?a = true =>
                    now apply andb_true_iff in H as [H _]
                end ] ] ].

Ltac entries_tac :=
  first [ reflexivity
        | apply entries_1d_astype; assumption
        | apply entries_1d_float; assumption
        | apply entries_contiguous; assumption ].

Ltac extent_tac :=
  rewrite ?length_fortran_entries; cbn [data zeros fortran_copy buffer_length];
  rewrite ?length_fortran_entries; cbn [data zeros fortran_copy buffer_length];
  rewrite ?repeat_length; cbn [size_of fold_right]; rewrite ?Z.mul_1_r;
  first [ assumption | congruence ].

Ltac identity_leaf :=
  lazymatch goal with
  | Hst : ?st' = snd (_call _ _ _ _) |- identity_post ?ax (Ok _) ?st' =>
      subst st'; eexists _, _; split; [reflexivity|]; split;
      [ eapply (call_identity _ _ _ _ _ _ _ (fortran_entries ax));
        [ reflexivity | reflexivity | cbn [heap]; find_lookup | entries_tac
        | cbn [heap]; find_lookup | reflexivity | extent_tac
        | cbn [lib_sig sig_w];
          repeat (apply List.Forall_cons;
                  [eexists; split; [reflexivity | cbn [heap]; weight_tac] | ]);
          apply List.Forall_nil
        | cbn [lib_sig sig_info];
          first [ exact I | eexists; split; [reflexivity | len_tac] ] ]
      | split;
        [ cbn [shape zeros fortran_copy];
          first [ reflexivity | apply flat_shape; assumption ]
        | reflexivity ] ]
  end.

(** [2 & d] is 0 or 2, so [len(ds) == 2 & ds[0]] fails for one term. *)
Lemma land_2_ne_1 d : Z.land 2 d <> 1.
Proof.
  intros H. assert (Ho : Z.odd (Z.land 2 d) = true) by now rewrite H.
  rewrite <- Z.bit0_odd, Z.land_spec in Ho. discriminate Ho.
Qed.

(** [ds[1]] is only read when [len(ds) == 2 & ds[0]], which one term
    cannot satisfy *)
Ltac land2_absurd :=
  match goal with
  | H : negb (Z.of_nat (length (_ :: ?l)) =? Z.land 2 _) = false,
    E : ?l !! 0%nat = None |- _ =>
      destruct l; [|discriminate E];
      cbn [length Z.of_nat Pos.of_succ_nat] in H;
      apply negb_false_iff, Z.eqb_eq in H; symmetry in H;
      now apply land_2_ne_1 in H
  end.

Ltac identity_tac :=
  repeat wp_step; cbv beta iota;
  first [ str_absurd | dr_absurd | land2_absurd | identity_leaf ].

Lemma identity_at_zero_wp o c st ax :
  call_ready (heap st) c -> zero_weight (heap st) c ->
  heap st !! signal_of c = Some ax ->
  wp (run_entry o c) st (identity_post ax).
Proof.
  destruct st as [h cs]. cbn [heap].
  destruct c; cbn [call_ready zero_weight signal_of run_entry];
    intros Hr Hz Hx.
  - destruct Hr as ((ax' & Hx' & Hwf & Hrank) & Hm). unify_lookups.
    pose proof (scalar_is0_ge0 w Hz) as Hge.
    destruct (float_value_zero w Hz) as (a & Ha & Hza).
    identity_tac.
  - destruct Hr as (ax' & aw & Hx' & Hwf & Hrank & Hw & Hsz).
    destruct Hz as (aw' & Hw' & Hz). unify_lookups.
    pose proof (all_zero_ge0 _ Hz) as Hge.
    apply Z.eqb_eq in Hsz.
    identity_tac.
  - destruct Hr as ((ax' & Hx' & Hwf & Hrank) & Hm). unify_lookups.
    pose proof (scalar_is0_ge0 w Hz) as Hge.
    destruct (float_value_zero w Hz) as (a & Ha & Hza).
    identity_tac.
  - destruct Hr as ((ax' & Hx' & Hwf & Hrank) & Hm & Hp1 & (ap & Hp)).
    unify_lookups.
    change ["gp"; "fw"; "gpfw"] with (map fst tvp_methods) in Hm.
    pose proof (scalar_is0_ge0 w Hz) as Hge.
    destruct (float_value_zero w Hz) as (a & Ha & Hza).
    identity_tac.
  - destruct Hr as ((ax' & Hx' & Hwf & Hrank) & Hm). unify_lookups.
    destruct (rank2_shape _ Hrank) as (m & n & Hm0 & Hn1).
    pose proof (scalar_is0_ge0 w Hz) as Hge.
    destruct (float_value_zero w Hz) as (a & Ha & Hza).
    identity_tac.
  - destruct Hr as (ax' & ac & ar & m & n & Hx' & Hwf & Hs & Hc & Hsc & Hr & Hsr).
    destruct Hz as (ac' & ar' & Hc' & Hzc & Hr' & Hzr). unify_lookups.
    pose proof (all_zero_ge0 _ Hzc) as Hgc.
    pose proof (all_zero_ge0 _ Hzr) as Hgr.
    apply (bool_decide_eq_true_2 _) in Hsc, Hsr.
    identity_tac.
  - destruct Hr as ((ax' & Hx' & Hwf & Hrank) & Hpc1 & (apc & Hpc) & Hpr1 & (apr & Hpr)).
    unify_lookups.
    destruct (rank2_shape _ Hrank) as (m & n & Hm0 & Hn1).
    destruct Hz as [Hzc Hzr].
    pose proof (scalar_is0_ge0 _ Hzc) as Hgc.
    pose proof (scalar_is0_ge0 _ Hzr) as Hgr.
    destruct (float_value_zero _ Hzc) as (a & Ha & Hza).
    destruct (float_value_zero _ Hzr) as (b & Hb & Hzb).
    identity_tac.
  - destruct Hr as (ax' & pw & pp & aw & ap & Hx' & Hwf & -> & Hw & Hsw & -> & Hp
                    & Hsp & Hds & Hnt & Hmi).
    destruct Hz as (pw' & aw' & [= <-] & Hw' & Hz). unify_lookups.
    apply seq_len_eqb in Hsw as (aw' & rw & Hw' & Hsw).
    apply seq_len_eqb in Hsp as (ap' & rp & Hp' & Hsp).
    unify_lookups.
    apply Z.leb_le in Hnt, Hmi.
    destruct ds as [|d0 ds']; [congruence|].
    identity_tac.
Qed.



(** ** The entry points on concrete calls *)

(** C1: [tvgen(x, ws, [1, 2], ps)] with two terms, one along each axis of
    a matrix, is the call the comment in [tvgen] gives to Douglas-Rachford.
    The condition [len(ds) == 2 & ds[0] == 1 & ds[1] == 2] is false on it
    ([2 & 1] is 0, not 2), so the call goes to Proximal Dykstra [PD2_TV];
    [DR2_TV] is not invoked. *)
Theorem tvgen_axis_pair_takes_dykstra (o : oracle_t) :
  fst (dr_condition [1; 2] st_axes) = Ok false /\
  fst (run_entry o axes_call st_axes) = Ok 4%nat /\
  calls (snd (run_entry o axes_call st_axes))
  = [mk_call PD2_TV
       [CPtr 0; CPtr 1; CPtr 2; CSeq [SInt 1; SInt 2]; CPtr 4; CPtr 3;
        CSeq [SInt 2; SInt 2]; CNum (SInt 2); CNum (SInt 2); CNum (SInt 1);
        CNum (SInt 0)]].
Proof. repeat split; reflexivity. Qed.

(** C3: [tvgen] with [ws = [-1, 1]] and [ps = [0, 1]] carries a negative
    weight and a norm below 1, and is not turned away: it returns, having
    invoked [PD2_TV] on these weights and norms. *)
Theorem tvgen_accepts_negative_weight (o : oracle_t) :
  negative_input (heap st_negative) axes_call /\
  has_below_one (F64 [fl 0; fl 1]) = true /\
  fst (run_entry o axes_call st_negative) = Ok 4%nat /\
  map nc_fn (calls (snd (run_entry o axes_call st_negative))) = [PD2_TV].
Proof.
  split.
  - exists 1%nat, 2%nat, (vec [fl (-1); fl 1]), (vec [fl 0; fl 1]).
    repeat split; try reflexivity. left. reflexivity.
  - repeat split; reflexivity.
Qed.

(** C4: [tv1w_1d(x, w, method='newton')] names a method outside the
    family ['tautstring', 'pn'] and is not turned away: it returns, having
    invoked the projected Newton solver [PN_TV1_Weighted]. *)
Theorem tv1w_1d_unknown_method_runs_newton (o : oracle_t) :
  method_of newton_call = Some ("newton", ["tautstring"; "pn"]) /\
  str_in "newton" ["tautstring"; "pn"] = false /\
  fst (run_entry o newton_call st_signal3) = Ok 2%nat /\
  calls (snd (run_entry o newton_call st_signal3))
  = [mk_call PN_TV1_Weighted
       [CPtr 0; CPtr 1; CPtr 2; CPtr 3; CNum (SInt 3);
        CNum (SFloat sigma_default); CNull]].
Proof. repeat split; reflexivity. Qed.

(** C5: [tvp_1d] takes [max_iters] and drops it: the run is the same for
    any two values of it, and in [tvp_1d(x, 1, 2, max_iters=7)] the solver
    [GPFW_TVp] is handed the signal, the weight, the output and info
    buffers, the length, the norm and a null workspace, and no cap. *)
Theorem tvp_1d_drops_max_iters (o : oracle_t) :
  (forall x w p method m1 m2 st,
     tvp_1d o x w p method m1 st = tvp_1d o x w p method m2 st) /\
  cap_of capped_call = Some 7 /\
  calls (snd (run_entry o capped_call st_signal3))
  = [mk_call GPFW_TVp
       [CPtr 0; CNum (SFloat (fl 1)); CPtr 3; CPtr 2; CNum (SInt 3);
        CNum (SFloat (fl 2)); CNull]].
Proof. repeat split; reflexivity. Qed.

(** C2, as the claim states it, fails on [tv2_1d(x, 1)]: two solvers
    that leave the same solution and report different diagnostics (5
    iterations, 9 iterations) give the caller the same returned value, so
    the diagnostics cannot be read off what is returned. *)
Lemma diagnostics_not_returned : ~ returns_diagnostics tv2_call st_signal3.
Proof.
  intros [decode H].
  pose proof (H oracle_5_iters) as H5. pose proof (H oracle_9_iters) as H9.
  assert (E : returned (run_entry oracle_5_iters tv2_call st_signal3)
              = returned (run_entry oracle_9_iters tv2_call st_signal3))
    by reflexivity.
  rewrite E, H9 in H5. vm_compute in H5. discriminate H5.
Qed.

(** ** The theorems at concrete calls *)

Lemma entry_returns_solution_only_witness :
  valid_refs (heap st_signal3) tv2_call /\
  fst (run_entry oracle_5_iters tv2_call st_signal3) = Ok 3%nat /\
  (exists fn args_m,
     calls (snd (run_entry oracle_5_iters tv2_call st_signal3))
     = calls st_signal3 ++ [mk_call fn args_m] /\
     args_m !! sig_out (lib_sig fn) = Some (CPtr 3%nat) /\
     forall i, sig_info (lib_sig fn) = Some i ->
       exists q, args_m !! i = Some (CPtr q) /\ q <> 3%nat
                 /\ heap st_signal3 !! q = None) /\
  (forall o', same_solution oracle_5_iters o' ->
     returned (run_entry o' tv2_call st_signal3)
     = returned (run_entry oracle_5_iters tv2_call st_signal3)).
Proof.
  assert (Hv : valid_refs (heap st_signal3) tv2_call).
  { repeat constructor. eexists. reflexivity. }
  split; [exact Hv|]. split; [reflexivity|].
  apply (entry_returns_solution_only oracle_5_iters tv2_call st_signal3 3%nat Hv).
  reflexivity.
Defined.

Lemma tv1w_2d_contract_witness :
  heap st_weighted !! 0%nat = Some mat22 /\ shape mat22 = [2; 2] /\
  (exists ac ar,
     heap st_weighted !! 1%nat = Some ac /\ heap st_weighted !! 2%nat = Some ar /\
     shape ac = [2 - 1; 2] /\ shape ar = [2; 2 - 1] /\
     all_ge0 (data ac) = true /\ all_ge0 (data ar) = true) /\
  exists y px pc pr pinfo,
    fst (tv1w_2d quiet_oracle 0%nat 1%nat 2%nat 0 1 st_weighted) = Ok y /\
    calls (snd (tv1w_2d quiet_oracle 0%nat 1%nat 2%nat 0 1 st_weighted))
    = calls st_weighted ++
      [mk_call DR2L1W_TV
         [CNum (SInt 2); CNum (SInt 2); CPtr px; CPtr pc; CPtr pr; CPtr y;
          CNum (SInt 1); CNum (SInt 0); CPtr pinfo]].
Proof.
  split; [reflexivity|]. split; [reflexivity|]. split.
  - eexists _, _. repeat split; reflexivity.
  - eapply (proj2 (tv1w_2d_contract quiet_oracle 0%nat 1%nat 2%nat 0 1 st_weighted
                     mat22 _ _ 2 2 eq_refl eq_refl eq_refl eq_refl));
      reflexivity.
Defined.



Lemma tvgen_needs_arrays_witness :
  valid_refs (heap st_axes) lists_call /\
  is_list (VSeq [SInt 1; SInt 1]) /\
  seq_len (heap st_axes) (VSeq [SInt 1; SInt 1]) = Some (Z.of_nat (length [1; 2])) /\
  fst (run_entry quiet_oracle lists_call st_axes) = Raise (AttributeError "dtype") /\
  calls (snd (run_entry quiet_oracle lists_call st_axes)) = calls st_axes.
Proof.
  assert (Hv : valid_refs (heap st_axes) lists_call).
  { repeat constructor. eexists. reflexivity. }
  split; [exact Hv|]. split; [exact I|]. split; [reflexivity|].
  destruct (tvgen_needs_arrays quiet_oracle 0%nat (VSeq [SInt 1; SInt 1]) [1; 2]
              (VSeq [SInt 1; SInt 1]) 1 0 st_axes Hv) as [Hl _].
  destruct (Hl (or_introl I)) as (_ & Hc & He).
  split; [apply He; [reflexivity | reflexivity | lia | lia] | exact Hc].
Defined.

Lemma force_float_idempotent_witness :
  heap st_int3 !! 0%nat
  = Some {| shape := [3]; order := C_order; data := I64 [1; 2; 3] |} /\
  exists q st1 a1,
    force_float_matrix (VArr 0%nat) st_int3 = (Ok q, st1) /\
    heap st1 !! q = Some a1 /\ is_float64 a1 = true /\
    force_float_matrix (VArr q) st1 = (Ok q, st1).
Proof.
  split; [reflexivity|].
  destruct (proj2 force_float_idempotent st_int3 0%nat _ eq_refl)
    as (q & st1 & a1 & H1 & H2 & H3 & H4 & _).
  exists q, st1, a1. auto.
Defined.
(** ** The contracts of the entry points *)

Lemma wp_eq {A : Type} (m : M A) st r0 st0 :
  wp m st (fun r st' => r = r0 /\ st' = st0) -> m st = (r0, st0).
Proof.
  unfold wp. destruct (m st) as [r st']. cbn. now intros [-> ->].
Qed.

Lemma float_value_cases w :
  float_ok w \/ float_value w = Raise OverflowError.
Proof.
  unfold float_ok, float_value, force_float_scalar, py_float.
  destruct w as [z|f|b]; cbn; eauto.
  destruct (float_of_Z z); cbn; eauto.
Qed.

Lemma float_value_overflow w : ~ float_ok w -> float_value w = Raise OverflowError.
Proof. intros H. now destruct (float_value_cases w). Qed.

(** the run ends as stated, in the state where it began *)
Ltac same_state := apply wp_eq; repeat wp_step; cbv beta iota; split; reflexivity.

(** the run ends in the stated exception without a foreign call *)
Ltac raises_tac :=
  repeat wp_step; cbv beta iota;
  first [ str_absurd | split; [reflexivity | reflexivity] ].

(** the run returns after one call of the solver of the dispatch table *)
Ltac returns_tac :=
  repeat wp_step; cbv beta iota;
  first [ str_absurd
        | do 2 eexists; split; [reflexivity|];
          lazymatch goal with
          | Hc : calls _ = _ |- _ => rewrite Hc
          end;
          do 3 f_equal; symmetry; solver_tac ].

Section Contracts.

Variable o : oracle_t.

(** X1: [tv1_1d]: an unknown method or a weight that is not [>= 0] fails an
    assertion and leaves the store as it was; an integer weight too large
    for a double then raises OverflowError, the store still untouched;
    every other call returns after one call of the solver of its method,
    whatever the array [x] is. *)
Theorem tv1_1d_contract x w sigma method st ax :
  heap st !! x = Some ax ->
  (str_in method ["tautstring"; "pn"; "condat"; "dp"] = false
   \/ scalar_ge0 w = false ->
   tv1_1d o x w sigma method st = (Raise AssertionError, st))
  /\
  (str_in method ["tautstring"; "pn"; "condat"; "dp"] = true ->
   scalar_ge0 w = true ->
   (~ float_ok w -> tv1_1d o x w sigma method st = (Raise OverflowError, st))
   /\
   (float_ok w ->
    exists y args_m,
      fst (tv1_1d o x w sigma method st) = Ok y /\
      calls (snd (tv1_1d o x w sigma method st))
      = calls st
        ++ [mk_call (chosen_solver (Call_tv1_1d x w sigma method)) args_m])).
Proof.
  intros Hx. destruct st as [h cs]. cbn [heap calls] in *. split.
  - intros [Hb|Hb]; same_state.
  - intros Hm Hw. split.
    + intros Hf. apply float_value_overflow in Hf. same_state.
    + intros [wf Hf].
      apply (wp_run (tv1_1d o x w sigma method) {| heap := h; calls := cs |}
               (fun r st' => exists y args_m, r = Ok y /\
                  calls st' = cs ++ [mk_call (chosen_solver
                                         (Call_tv1_1d x w sigma method)) args_m])).
      returns_tac.
Qed.

(** X2: [tv1w_1d]: the weights must all be [>= 0] and be one fewer than the
    entries of [x], or an assertion fails with the store as it was; then
    the call returns after one solver call, for every [method] string.
    An empty signal is always turned away. *)
Theorem tv1w_1d_contract x w method sigma st ax aw :
  heap st !! x = Some ax -> heap st !! w = Some aw ->
  (all_ge0 (data aw) = false \/ size_of (shape ax) - 1 <> size_of (shape aw) ->
   tv1w_1d o x w method sigma st = (Raise AssertionError, st))
  /\
  (all_ge0 (data aw) = true -> size_of (shape ax) - 1 = size_of (shape aw) ->
   exists y args_m,
     fst (tv1w_1d o x w method sigma st) = Ok y /\
     calls (snd (tv1w_1d o x w method sigma st))
     = calls st
       ++ [mk_call (chosen_solver (Call_tv1w_1d x w method sigma)) args_m])
  /\
  (size_of (shape ax) = 0 -> 0 <= size_of (shape aw) ->
   tv1w_1d o x w method sigma st = (Raise AssertionError, st)).
Proof.
  intros Hx Hw. destruct st as [h cs]. cbn [heap calls] in *.
  assert (Hrej : all_ge0 (data aw) = false
                 \/ size_of (shape ax) - 1 <> size_of (shape aw) ->
                 tv1w_1d o x w method sigma {| heap := h; calls := cs |}
                 = (Raise AssertionError, {| heap := h; calls := cs |})).
  { intros [Hb|Hb]; [|apply Z.eqb_neq in Hb]; same_state. }
  split; [exact Hrej|]. split.
  - intros Hg Hs. apply Z.eqb_eq in Hs.
    apply (wp_run (tv1w_1d o x w method sigma) {| heap := h; calls := cs |}
             (fun r st' => exists y args_m, r = Ok y /\
                calls st' = cs ++ [mk_call (chosen_solver
                                       (Call_tv1w_1d x w method sigma)) args_m])).
    returns_tac.
  - intros H0 Hnn. apply Hrej. right. lia.
Qed.

(** X3: [tv2_1d]: a weight that is not [>= 0] or an unknown method fails an
    assertion, an integer weight too large for a double raises
    OverflowError, both with the store as it was; every other call returns
    after one call of the solver of its method. *)
Theorem tv2_1d_contract x w method st ax :
  heap st !! x = Some ax ->
  (scalar_ge0 w = false \/ str_in method ["ms"; "pg"; "mspg"] = false ->
   tv2_1d o x w method st = (Raise AssertionError, st))
  /\
  (scalar_ge0 w = true -> str_in method ["ms"; "pg"; "mspg"] = true ->
   (~ float_ok w -> tv2_1d o x w method st = (Raise OverflowError, st))
   /\
   (float_ok w ->
    exists y args_m,
      fst (tv2_1d o x w method st) = Ok y /\
      calls (snd (tv2_1d o x w method st))
      = calls st ++ [mk_call (chosen_solver (Call_tv2_1d x w method)) args_m])).
Proof.
  intros Hx. destruct st as [h cs]. cbn [heap calls] in *. split.
  - intros [Hb|Hb]; same_state.
  - intros Hw Hm. split.
    + intros Hf. apply float_value_overflow in Hf. same_state.
    + intros [wf Hf].
      apply (wp_run (tv2_1d o x w method) {| heap := h; calls := cs |}
               (fun r st' => exists y args_m, r = Ok y /\
                  calls st' = cs ++ [mk_call (chosen_solver
                                         (Call_tv2_1d x w method)) args_m])).
      returns_tac.
Qed.

(** X4: [tvp_1d]: the method must be a key of the dictionary, the weight
    [>= 0] and the norm [>= 1], or an assertion fails; a weight or norm
    too large for a double raises OverflowError; in both cases the store
    is as it was. Every other call returns after one call of the solver
    the dictionary gives. *)
Theorem tvp_1d_contract x w p method max_iters st ax :
  heap st !! x = Some ax ->
  (str_in method ["gp"; "fw"; "gpfw"] = false \/ scalar_ge0 w = false
   \/ scalar_ge1 p = false ->
   tvp_1d o x w p method max_iters st = (Raise AssertionError, st))
  /\
  (str_in method ["gp"; "fw"; "gpfw"] = true -> scalar_ge0 w = true ->
   scalar_ge1 p = true ->
   (~ (float_ok w /\ float_ok p) ->
    tvp_1d o x w p method max_iters st = (Raise OverflowError, st))
   /\
   (float_ok w -> float_ok p ->
    exists y args_m,
      fst (tvp_1d o x w p method max_iters st) = Ok y /\
      calls (snd (tvp_1d o x w p method max_iters st))
      = calls st
        ++ [mk_call (chosen_solver (Call_tvp_1d x w p method max_iters)) args_m])).
Proof.
  intros Hx. destruct st as [h cs]. cbn [heap calls] in *.
  change ["gp"; "fw"; "gpfw"] with (map fst tvp_methods).
  split.
  - intros [Hb|[Hb|Hb]]; same_state.
  - intros Hm Hw Hp. split.
    + intros Hf.
      destruct (float_value_cases w) as [[wf Hwf]|Hwf].
      * assert (Hpf : float_value p = Raise OverflowError).
        { apply float_value_overflow. intros Hp'. apply Hf. split; [|exact Hp'].
          now exists wf. }
        same_state.
      * same_state.
    + intros [wf Hwf] [pf Hpf].
      apply (wp_run (tvp_1d o x w p method max_iters) {| heap := h; calls := cs |}
               (fun r st' => exists y args_m, r = Ok y /\
                  calls st' = cs ++ [mk_call (chosen_solver
                                         (Call_tvp_1d x w p method max_iters))
                                       args_m])).
      returns_tac.
Qed.


(** ** The matrix entry points *)

Lemma short_shape (sh : list Z) :
  (length sh < 2)%nat -> sh !! 0%nat = None \/ sh !! 1%nat = None.
Proof. destruct sh as [|d [|e rest]]; cbn; intros H; auto. lia. Qed.

Lemma long_shape (sh : list Z) :
  (2 <= length sh)%nat -> exists m n, sh !! 0%nat = Some m /\ sh !! 1%nat = Some n.
Proof. destruct sh as [|d [|e rest]]; cbn; intros H; try lia. eauto. Qed.

(** a rank below 2 with both of the first two extents present *)
Ltac rank_absurd :=
  match goal with
  | H : _ = None \/ _ = None |- _ => destruct H as [H|H]; congruence
  end.

Ltac raises_quietly :=
  repeat wp_step; cbv beta iota;
  first [ str_absurd | rank_absurd | split; reflexivity ].

(** X5: [tv1_2d]: a weight that is not [>= 0] or an unknown method fails an
    assertion with the store as it was. After that the signal has been
    converted, so the store may hold a copy, but no solver runs when the
    weight is an integer too large for a double (OverflowError) or when
    [x] has fewer than two axes and the method reads [x.shape[1]]
    (IndexError). The rank of [x] is not checked otherwise: method ['pd']
    never indexes the shape and returns for every [x]. *)
Theorem tv1_2d_contract x w n_threads max_iters method st ax :
  heap st !! x = Some ax ->
  (scalar_ge0 w = false
   \/ str_in method ["dr"; "pd"; "yang"; "condat"; "chambolle-pock"] = false ->
   tv1_2d o x w n_threads max_iters method st = (Raise AssertionError, st))
  /\
  (scalar_ge0 w = true ->
   str_in method ["dr"; "pd"; "yang"; "condat"; "chambolle-pock"] = true ->
   (~ float_ok w ->
    fst (tv1_2d o x w n_threads max_iters method st) = Raise OverflowError /\
    calls (snd (tv1_2d o x w n_threads max_iters method st)) = calls st)
   /\
   (float_ok w -> (length (shape ax) < 2)%nat -> method <> "pd" ->
    fst (tv1_2d o x w n_threads max_iters method st) = Raise IndexError /\
    calls (snd (tv1_2d o x w n_threads max_iters method st)) = calls st)
   /\
   (float_ok w -> (2 <= length (shape ax))%nat \/ method = "pd" ->
    exists y args_m,
      fst (tv1_2d o x w n_threads max_iters method st) = Ok y /\
      calls (snd (tv1_2d o x w n_threads max_iters method st))
      = calls st
        ++ [mk_call (chosen_solver (Call_tv1_2d x w n_threads max_iters method))
              args_m])).
Proof.
  intros Hx. destruct st as [h cs]. cbn [heap calls] in *. split.
  - intros [Hb|Hb]; same_state.
  - intros Hw Hm. split; [|split].
    + intros Hf. apply float_value_overflow in Hf.
      apply (wp_run (tv1_2d o x w n_threads max_iters method)
               {| heap := h; calls := cs |}
               (fun r st' => r = Raise OverflowError /\ calls st' = cs)).
      raises_quietly.
    + intros [wf Hf] Hrank Hpd. apply short_shape in Hrank.
      apply String.eqb_neq in Hpd.
      apply (wp_run (tv1_2d o x w n_threads max_iters method)
               {| heap := h; calls := cs |}
               (fun r st' => r = Raise IndexError /\ calls st' = cs)).
      raises_quietly.
    + intros [wf Hf] Hok.
      apply (wp_run (tv1_2d o x w n_threads max_iters method)
               {| heap := h; calls := cs |}
               (fun r st' => exists y args_m, r = Ok y /\
                  calls st' = cs ++ [mk_call (chosen_solver
                     (Call_tv1_2d x w n_threads max_iters method)) args_m])).
      destruct Hok as [Hrank| ->].
      * apply long_shape in Hrank as (m & n & Hm0 & Hn1). returns_tac.
      * assert (E1 : String.eqb "pd" "yang" = false) by reflexivity.
        assert (E2 : String.eqb "pd" "dr" = false) by reflexivity.
        assert (E3 : String.eqb "pd" "pd" = true) by reflexivity.
        returns_tac.
Qed.

(** X6: [tvp_2d]: both weights must be [>= 0] and both norms [>= 1], or an
    assertion fails with the store as it was. After that no solver runs
    when one of the four is an integer too large for a double
    (OverflowError) or when [x] has fewer than two axes (IndexError);
    every other call returns after one call of [DR2_TV]. *)
Theorem tvp_2d_contract x w_col w_row p_col p_row n_threads max_iters st ax :
  heap st !! x = Some ax ->
  (scalar_ge0 w_col = false \/ scalar_ge0 w_row = false
   \/ scalar_ge1 p_col = false \/ scalar_ge1 p_row = false ->
   tvp_2d o x w_col w_row p_col p_row n_threads max_iters st
   = (Raise AssertionError, st))
  /\
  (scalar_ge0 w_col = true -> scalar_ge0 w_row = true ->
   scalar_ge1 p_col = true -> scalar_ge1 p_row = true ->
   (~ (float_ok w_col /\ float_ok w_row /\ float_ok p_col /\ float_ok p_row) ->
    fst (tvp_2d o x w_col w_row p_col p_row n_threads max_iters st)
    = Raise OverflowError /\
    calls (snd (tvp_2d o x w_col w_row p_col p_row n_threads max_iters st))
    = calls st)
   /\
   (float_ok w_col -> float_ok w_row -> float_ok p_col -> float_ok p_row ->
    ((length (shape ax) < 2)%nat ->
     fst (tvp_2d o x w_col w_row p_col p_row n_threads max_iters st)
     = Raise IndexError /\
     calls (snd (tvp_2d o x w_col w_row p_col p_row n_threads max_iters st))
     = calls st)
    /\
    ((2 <= length (shape ax))%nat ->
     exists y args_m,
       fst (tvp_2d o x w_col w_row p_col p_row n_threads max_iters st) = Ok y /\
       calls (snd (tvp_2d o x w_col w_row p_col p_row n_threads max_iters st))
       = calls st ++ [mk_call DR2_TV args_m]))).
Proof.
  intros Hx. destruct st as [h cs]. cbn [heap calls] in *. split.
  - intros [Hb|[Hb|[Hb|Hb]]]; same_state.
  - intros Hwc Hwr Hpc Hpr. split.
    + intros Hf.
      apply (wp_run (tvp_2d o x w_col w_row p_col p_row n_threads max_iters)
               {| heap := h; calls := cs |}
               (fun r st' => r = Raise OverflowError /\ calls st' = cs)).
      destruct (float_value_cases w_col) as [[a Ha]|Ha]; [|raises_quietly].
      destruct (float_value_cases w_row) as [[b Hb]|Hb]; [|raises_quietly].
      destruct (float_value_cases p_col) as [[c Hc]|Hc]; [|raises_quietly].
      destruct (float_value_cases p_row) as [[d Hd]|Hd]; [|raises_quietly].
      exfalso. apply Hf. unfold float_ok. eauto 10.
    + intros [a Ha] [b Hb] [c Hc] [d Hd]. split.
      * intros Hrank. apply short_shape in Hrank.
        apply (wp_run (tvp_2d o x w_col w_row p_col p_row n_threads max_iters)
                 {| heap := h; calls := cs |}
                 (fun r st' => r = Raise IndexError /\ calls st' = cs)).
        raises_quietly.
      * intros Hrank. apply long_shape in Hrank as (m & n & Hm0 & Hn1).
        apply (wp_run (tvp_2d o x w_col w_row p_col p_row n_threads max_iters)
                 {| heap := h; calls := cs |}
                 (fun r st' => exists y args_m, r = Ok y /\
                    calls st' = cs ++ [mk_call DR2_TV args_m])).
        repeat wp_step; cbv beta iota;
          do 2 eexists; (split; [reflexivity | exact Hcalls]).
Qed.

(** X7: [tv1w_2d] unpacks [M, N = x.shape] after the two weight assertions:
    with all weights [>= 0], a signal that is not a matrix raises
    ValueError, the store as it was. *)
Theorem tv1w_2d_needs_matrix x w_col w_row max_iters n_threads st ax ac ar :
  heap st !! x = Some ax ->
  heap st !! w_col = Some ac -> heap st !! w_row = Some ar ->
  all_ge0 (data ac) = true -> all_ge0 (data ar) = true ->
  length (shape ax) <> 2%nat ->
  tv1w_2d o x w_col w_row max_iters n_threads st = (Raise ValueError, st).
Proof.
  intros Hx Hc Hr Hgc Hgr Hrank. destruct st as [h cs]. cbn [heap calls] in *.
  destruct (shape ax) as [|d0 [|d1 [|d2 rest]]] eqn:Hs; try (now cbn in Hrank);
    same_state.
Qed.


(** ** [tvgen] *)

Ltac tvgen_returns :=
  repeat wp_step; cbv beta iota;
  first [ dr_absurd | land2_absurd
        | do 2 eexists; split; [reflexivity|];
          lazymatch goal with
          | Hc : calls _ = _ |- _ => rewrite Hc
          end;
          do 3 f_equal; symmetry; solver_tac ].

(** X8: [tvgen] with numpy arrays for [ws] and [ps]: the lengths of [ws],
    [ds] and [ps] must agree, [n_threads] be at least 1 and [max_iters] at
    least 0, or an assertion fails with the store as it was; the values of
    the weights and norms play no part. With no penalty term at all the
    dispatch condition reads [ds[0]] and raises IndexError, no solver
    having run; with one or more terms the call returns after one call
    of [PD2_TV] (two terms) or [PD_TV] (any other number). *)
Theorem tvgen_contract x pw ds pp n_threads max_iters st ax aw ap lw rw lp rp :
  heap st !! x = Some ax ->
  heap st !! pw = Some aw -> shape aw = lw :: rw ->
  heap st !! pp = Some ap -> shape ap = lp :: rp ->
  (lw <> Z.of_nat (length ds) \/ lw <> lp \/ n_threads < 1 \/ max_iters < 0 ->
   tvgen o x (VArr pw) ds (VArr pp) n_threads max_iters st
   = (Raise AssertionError, st))
  /\
  (lw = Z.of_nat (length ds) -> lw = lp -> 1 <= n_threads -> 0 <= max_iters ->
   (ds = [] ->
    fst (tvgen o x (VArr pw) ds (VArr pp) n_threads max_iters st)
    = Raise IndexError /\
    calls (snd (tvgen o x (VArr pw) ds (VArr pp) n_threads max_iters st))
    = calls st)
   /\
   (ds <> [] ->
    exists y args_m,
      fst (tvgen o x (VArr pw) ds (VArr pp) n_threads max_iters st) = Ok y /\
      calls (snd (tvgen o x (VArr pw) ds (VArr pp) n_threads max_iters st))
      = calls st
        ++ [mk_call (if Z.of_nat (length ds) =? 2 then PD2_TV else PD_TV)
              args_m])).
Proof.
  intros Hx Hw Hsw Hp Hsp. destruct st as [h cs]. cbn [heap calls] in *. split.
  - intros [Hb|[Hb|[Hb|Hb]]];
      [apply Z.eqb_neq in Hb | apply Z.eqb_neq in Hb
      | apply Z.leb_gt in Hb | apply Z.leb_gt in Hb];
      same_state.
  - intros -> <- Hnt Hmi. apply Z.leb_le in Hnt, Hmi. split.
    + intros ->.
      apply (wp_run (tvgen o x (VArr pw) [] (VArr pp) n_threads max_iters)
               {| heap := h; calls := cs |}
               (fun r st' => r = Raise IndexError /\ calls st' = cs)).
      repeat wp_step; cbv beta iota; split; reflexivity.
    + intros Hds. destruct ds as [|d0 ds']; [congruence|].
      apply (wp_run (tvgen o x (VArr pw) (d0 :: ds') (VArr pp) n_threads max_iters)
               {| heap := h; calls := cs |}
               (fun r st' => exists y args_m, r = Ok y /\
                  calls st' = cs ++ [mk_call (chosen_solver
                     (Call_tvgen x (VArr pw) (d0 :: ds') (VArr pp)
                        n_threads max_iters)) args_m])).
      tvgen_returns.
Qed.

End Contracts.
(** ** Foreign calls against their declarations *)

Lemma shape_is_integers (sh : list Z) : forallb is_integer (map SInt sh) = true.
Proof. induction sh as [|d sh IH]; [reflexivity | exact IH]. Qed.

Ltac typed_leaf :=
  lazymatch goal with
  | Hc : calls ?st' = _ |- exists l, calls ?st' = _ /\ _ =>
      eexists; split; [exact Hc|];
      apply List.Forall_cons; [|apply List.Forall_nil];
      cbn [well_typed nc_fn nc_args lib_params map cast_arg VInt accepts_args
           accepts_arg is_integer andb];
      rewrite ?shape_is_integers; reflexivity
  | |- exists l, _ = _ /\ _ =>
      exists []; split; [now rewrite app_nil_r | apply List.Forall_nil]
  end.

Lemma calls_typed_wp o c st :
  wp (run_entry o c) st
     (fun _ st' => exists l, calls st' = calls st ++ l
                             /\ Forall (fun nc => well_typed nc = true) l).
Proof.
  destruct st as [h cs]. cbn [heap calls].
  destruct c; cbn [run_entry].
  8: destruct ws, ps.
  all: repeat wp_step; cbv beta iota; cbn [calls].
  all: first [ dr_absurd | typed_leaf ].
Qed.

(** X9: Every foreign call an entry point makes fits the C declaration of the
    function it calls: the number of arguments is the number of
    parameters, and each argument is of a kind cffi converts to its
    parameter's type. *)
Theorem calls_match_declarations o c st :
  Forall (fun nc => well_typed nc = true) (new_calls st (run_entry o c st)).
Proof.
  destruct (wp_run _ _ _ (calls_typed_wp o c st)) as (l & Hl & Ht).
  unfold new_calls. rewrite Hl, drop_app_length. exact Ht.
Qed.
(** ** The buffers handed to the solvers *)

Lemma call_keeps_float64 o fn args st p a :
  heap st !! p = Some a -> is_float64 a = true ->
  exists a', heap (snd (_call o fn args st)) !! p = Some a' /\ is_float64 a' = true.
Proof.
  intros Hp Hf.
  destruct (call_heap_kind o fn args st p a Hp) as (a' & Ha' & _ & _ & Hf').
  exists a'. split; [exact Ha' | congruence].
Qed.

Lemma float64_behind_nil h : float64_behind h [].
Proof. intros p Hp. now apply elem_of_nil in Hp. Qed.

Lemma float64_behind_ptr h p l a :
  h !! p = Some a -> is_float64 a = true ->
  float64_behind h l -> float64_behind h (CPtr p :: l).
Proof.
  intros Hp Hf Hl q Hq. apply elem_of_cons in Hq as [[= ->]|Hq]; eauto.
Qed.

Lemma float64_behind_other h c l :
  match c with CPtr _ => False | _ => True end ->
  float64_behind h l -> float64_behind h (c :: l).
Proof.
  intros Hc Hl q Hq. apply elem_of_cons in Hq as [<-|Hq]; [contradiction|eauto].
Qed.

Ltac is_float64_tac :=
  first
    [ reflexivity
    | match goal with
      | H : negb (is_float64 ?a) = false |- is_float64 ?a = true =>
          now apply negb_false_iff in H
      | H : is_float64 ?a && _ = true |- is_float64 ?a = true =>
          now apply andb_true_iff in H as [H _]
      end ].

Lemma call_float64 o fn args st :
  float64_behind (heap st) (map cast_arg args) ->
  float64_behind (heap (snd (_call o fn args st))) (map cast_arg args).
Proof.
  intros H p Hp. destruct (H p Hp) as (a & Ha & Hf).
  now apply (call_keeps_float64 o fn args st p a).
Qed.

Ltac float64_leaf :=
  lazymatch goal with
  | Hst : ?st' = snd (_call _ _ _ _), Hc : calls ?st' = _
    |- exists fn args_m, calls ?st' = _ /\ _ =>
      eexists _, _; split; [exact Hc|];
      rewrite Hst; apply call_float64; cbn [heap];
      cbn [map cast_arg VInt];
      repeat first
        [ apply float64_behind_nil
        | apply float64_behind_other; [exact I|]
        | eapply float64_behind_ptr; [find_lookup | is_float64_tac | ] ]
  end.

Lemma float64_wp o c st :
  valid_refs (heap st) c ->
  wp (run_entry o c) st
     (fun r st' =>
        match r with
        | Ok _ => exists fn args_m,
                    calls st' = calls st ++ [mk_call fn args_m]
                    /\ float64_behind (heap st') args_m
        | Raise _ => True
        end).
Proof.
  destruct st as [h cs]. cbn [heap calls].
  destruct c; intros Hv; cbn [run_entry].
  8: destruct ws, ps.
  all: use_refs Hv.
  all: repeat wp_step; cbv beta iota.
  all: first [ exact I | dr_absurd | str_absurd | float64_leaf ].
Qed.

(** X10: The cast to [double *] in [_call] is always applied to an array of
    doubles: when an entry point returns, every array it handed to the
    solver (signal, weights, output and info buffer) is a float64 array. *)
Theorem solver_gets_float64_buffers o c st y :
  valid_refs (heap st) c ->
  fst (run_entry o c st) = Ok y ->
  exists fn args_m,
    calls (snd (run_entry o c st)) = calls st ++ [mk_call fn args_m]
    /\ float64_behind (heap (snd (run_entry o c st))) args_m.
Proof.
  intros Hv Hy. pose proof (float64_wp o c st Hv) as H. unfold wp in H.
  rewrite Hy in H. exact H.
Qed.
(** ** The signal handed to the solver *)

Lemma data_float64 a : is_float64 a = true -> data a = F64 (to_float64 (data a)).
Proof. unfold is_float64. destruct (data a); [reflexivity | discriminate]. Qed.

Ltac not_target :=
  unfold call_targets;
  cbn [map cast_arg VInt lib_sig sig_out sig_info lookup list_lookup ptr_of app];
  rewrite ?not_elem_of_cons;
  repeat split; first [ apply not_elem_of_nil | len_tac ].

(** a reference that is in the store is below its length *)
Ltac bound_refs :=
  repeat match goal with
         | H : ?h !! ?p = Some _ |- _ =>
             lazymatch goal with
             | _ : (p < length h)%nat |- _ => fail
             | _ => pose proof (lookup_lt_Some h p _ H)
             end
         end.

Ltac norm_tests :=
  repeat match goal with
         | H : negb _ = true |- _ => apply negb_true_iff in H
         | H : negb _ = false |- _ => apply negb_false_iff in H
         end.

Ltac signal_leaf :=
  lazymatch goal with
  | Hst : ?st' = snd (_call _ _ _ _), Hc : calls ?st' = _
    |- exists fn args_m px axf, calls ?st' = _ /\ _ =>
      eexists _, _, _, _; split; [exact Hc|];
      split; [solver_tac|];
      split; [reflexivity|];
      split; [rewrite Hst, call_heap_other; [cbn [heap]; find_lookup | not_target]|];
      split; [first [reflexivity | assumption]|];
      norm_tests;
      split;
      [ unfold passed_entries; cbn [flat_result data astype_float fortran_copy];
        first [ reflexivity
              | apply data_float64; assumption
              | apply entries_contiguous; assumption ]
      | unfold needs_no_copy; cbn [flat_result orb];
        repeat match goal with
               | H : is_float64 _ = _ |- _ => rewrite H
               | H : is_float64 _ && _ = _ |- _ => rewrite H
               end;
        cbn [andb];
        first [ reflexivity | apply lookup_ge_None; len_tac ] ]
  end.

Lemma signal_wp o c st ax :
  valid_refs (heap st) c ->
  heap st !! signal_of c = Some ax ->
  wp (run_entry o c) st
     (fun r st' =>
        match r with
        | Ok _ =>
            exists fn args_m px axf,
              calls st' = calls st ++ [mk_call fn args_m] /\
              fn = chosen_solver c /\
              args_m !! sig_in (lib_sig fn) = Some (CPtr px) /\
              heap st' !! px = Some axf /\
              shape axf = shape ax /\
              data axf = F64 (passed_entries c ax) /\
              (if needs_no_copy c ax then px = signal_of c
               else heap st !! px = None)
        | Raise _ => True
        end).
Proof.
  destruct st as [h cs]. cbn [heap calls].
  destruct c; intros Hv Hx; cbn [run_entry signal_of] in *.
  8: destruct ws, ps.
  all: use_refs Hv; unify_lookups.
  all: bound_refs.
  all: repeat wp_step; cbv beta iota.
  all: first [ exact I | dr_absurd | str_absurd | signal_leaf ].
Qed.

(** X11: The solver reads the entries of [x] converted to float64 (in
    column-major order when the entry point calls [np.asfortranarray]),
    in an array of the shape of [x]. An [x] that is already in that form
    is handed over as it is, without a copy; otherwise what the solver
    gets is a new array, and [x] itself is not among its arguments'
    buffers. ([np.asfortranarray] gives an array without axes one axis;
    the statement is about signals with at least one axis there.) *)
Theorem signal_passed_converted o c st y ax :
  valid_refs (heap st) c ->
  heap st !! signal_of c = Some ax ->
  flat_result c = true \/ shape ax <> [] ->
  fst (run_entry o c st) = Ok y ->
  exists args_m px axf,
    calls (snd (run_entry o c st))
    = calls st ++ [mk_call (chosen_solver c) args_m] /\
    args_m !! sig_in (lib_sig (chosen_solver c)) = Some (CPtr px) /\
    heap (snd (run_entry o c st)) !! px = Some axf /\
    shape axf = shape ax /\
    data axf = F64 (passed_entries c ax) /\
    (if needs_no_copy c ax then px = signal_of c else heap st !! px = None).
Proof.
  intros Hv Hx _ Hy. pose proof (signal_wp o c st ax Hv Hx) as H. unfold wp in H.
  rewrite Hy in H. destruct H as (fn & args_m & px & axf & Hc & -> & H).
  exists args_m, px, axf. split; [exact Hc | exact H].
Qed.
(** ** Extents *)

Lemma length_overwrite old new : length (overwrite old new) = length old.
Proof.
  unfold overwrite. rewrite length_take, length_app, length_drop. lia.
Qed.

Lemma write_buf_extent h c v p a :
  h !! p = Some a ->
  exists a', write_buf h c v !! p = Some a' /\ shape a' = shape a
             /\ order a' = order a /\ is_float64 a' = is_float64 a
             /\ buffer_length (data a') = buffer_length (data a).
Proof.
  intros Hp. unfold write_buf.
  destruct c as [[| |q|]|]; eauto 6.
  destruct (h !! q) as [b|] eqn:E; eauto 6.
  destruct (data b) eqn:D; eauto 6.
  destruct (decide (q = p)) as [->|Hne].
  - rewrite list_lookup_insert_eq by eauto using lookup_lt_Some.
    eexists; split; [reflexivity|]. cbn.
    assert (b = a) by congruence. subst b.
    unfold is_float64. rewrite D. cbn. rewrite length_overwrite. auto.
  - rewrite list_lookup_insert_ne by assumption. eauto 6.
Qed.

Lemma call_heap_extent o fn args st p a :
  heap st !! p = Some a ->
  exists a', heap (snd (_call o fn args st)) !! p = Some a'
             /\ shape a' = shape a /\ order a' = order a
             /\ is_float64 a' = is_float64 a
             /\ buffer_length (data a') = buffer_length (data a).
Proof.
  unfold _call, native_run. cbn. intros Hp.
  destruct (sig_info (lib_sig fn)).
  - edestruct write_buf_extent as (a1 & Ha1 & ? & ? & ? & ?); [exact Hp|].
    edestruct write_buf_extent as (a2 & Ha2 & ? & ? & ? & ?); [exact Ha1|].
    exists a2. split; [exact Ha2|]. repeat split; congruence.
  - eapply write_buf_extent, Hp.
Qed.

Lemma length_zeros sh o : buffer_length (data (zeros sh o)) = Z.to_nat (size_of sh).
Proof. cbn. apply repeat_length. Qed.

Lemma length_fortran_zeros sh o :
  buffer_length (data (fortran_copy (zeros sh o))) = Z.to_nat (size_of sh).
Proof. cbn [fortran_copy data buffer_length]. now rewrite length_fortran_entries, length_zeros. Qed.

Lemma size_of_singleton n : size_of [n] = n.
Proof. cbn. apply Z.mul_1_r. Qed.

Ltac extent_of_call :=
  lazymatch goal with
  | Hst : ?st' = snd (_call ?o ?fn ?args ?pre)
    |- exists ay, heap ?st' !! ?y = Some ay /\ _ =>
      let a' := fresh "a'" in
      let Ha := fresh "Ha" in
      let Hl := fresh "Hl" in
      let a0 := fresh "a0" in
      evar (a0 : ndarray);
      assert (Hy0 : heap pre !! y = Some a0) by (subst a0; cbn [heap]; find_lookup);
      subst a0;
      destruct (call_heap_extent o fn args pre y _ Hy0)
        as (a' & Ha & _ & _ & _ & Hl);
      exists a'; rewrite Hst; split; [exact Ha|];
      rewrite Hl, ?length_zeros, ?length_fortran_zeros, ?size_of_singleton;
      first [ reflexivity | congruence ]
  end.

Ltac told_tac :=
  cbn [told_extents map cast_arg VInt lookup list_lookup extent_arg option_map];
  repeat match goal with
         | H : _ !! _ = Some _ |- _ => rewrite H
         end;
  cbn [extent_arg option_map];
  first [ reflexivity | split; reflexivity | congruence ].

Ltac extents_leaf :=
  lazymatch goal with
  | Hst : ?st' = snd (_call _ _ _ _), Hc : calls ?st' = _
    |- exists fn args_m, calls ?st' = _ /\ _ =>
      eexists _, _; split; [exact Hc|]; split; [told_tac | extent_of_call]
  end.

Lemma extents_wp o c st ax :
  valid_refs (heap st) c ->
  heap st !! signal_of c = Some ax ->
  wp (run_entry o c) st
     (fun r st' =>
        match r with
        | Ok y =>
            exists fn args_m,
              calls st' = calls st ++ [mk_call fn args_m] /\
              told_extents fn args_m (shape ax) /\
              exists ay,
                heap st' !! y = Some ay /\
                buffer_length (data ay) = Z.to_nat (size_of (shape ax))
        | Raise _ => True
        end).
Proof.
  destruct st as [h cs]. cbn [heap calls].
  destruct c; intros Hv Hx; cbn [run_entry signal_of] in *.
  8: destruct ws, ps.
  all: use_refs Hv; unify_lookups.
  all: repeat wp_step; cbv beta iota.
  all: first [ exact I | dr_absurd | str_absurd | extents_leaf ].
Qed.

(** X12: The extents a solver is told are those of the caller's [x]: the
    number of entries (one-dimensional solvers), the first two extents
    (matrix solvers) or the whole shape (Dykstra solvers); and the
    output buffer has as many entries as [x]. ([np.asfortranarray] gives
    an array without axes one axis; the statement is about signals with
    at least one axis there.) *)
Theorem extents_told_to_solver o c st y ax :
  valid_refs (heap st) c ->
  heap st !! signal_of c = Some ax ->
  flat_result c = true \/ shape ax <> [] ->
  fst (run_entry o c st) = Ok y ->
  exists fn args_m ay,
    calls (snd (run_entry o c st)) = calls st ++ [mk_call fn args_m] /\
    told_extents fn args_m (shape ax) /\
    heap (snd (run_entry o c st)) !! y = Some ay /\
    buffer_length (data ay) = Z.to_nat (size_of (shape ax)).
Proof.
  intros Hv Hx _ Hy. pose proof (extents_wp o c st ax Hv Hx) as H. unfold wp in H.
  rewrite Hy in H. destruct H as (fn & args_m & Hc & Ht & ay & Hay & Hl).
  exists fn, args_m, ay. auto.
Qed.
(** ** The returned array *)

Lemma f_contiguous_same a a' :
  shape a' = shape a -> order a' = order a -> f_contiguous a' = f_contiguous a.
Proof. unfold f_contiguous. now intros -> ->. Qed.

Lemma call_keeps_form o fn args st p a :
  heap st !! p = Some a ->
  is_float64 a = true -> f_contiguous a = true -> well_sized a ->
  exists a', heap (snd (_call o fn args st)) !! p = Some a'
             /\ well_sized a' /\ is_float64 a' = true /\ f_contiguous a' = true.
Proof.
  intros Hp Hf Hc Hw.
  destruct (call_heap_extent o fn args st p a Hp) as (a' & Ha' & Hs & Ho & Hf' & Hl).
  exists a'. split; [exact Ha'|]. split; [|split].
  - unfold well_sized in *. congruence.
  - congruence.
  - now rewrite (f_contiguous_same a a').
Qed.

Lemma f_contiguous_flat n o : f_contiguous (zeros [n] o) = true.
Proof. unfold f_contiguous. destruct o; cbn; [apply both_contiguous_1d | reflexivity]. Qed.

Ltac form_leaf :=
  lazymatch goal with
  | Hst : ?st' = snd (_call _ _ _ _) |- exists ay, heap ?st' !! _ = Some ay /\ _ =>
      rewrite Hst; eapply call_keeps_form;
      [ cbn [heap]; find_lookup
      | is_float64_tac
      | first [ reflexivity
              | apply f_contiguous_flat
              | match goal with
                | H : _ && f_contiguous ?a = true |- f_contiguous ?a = true =>
                    now apply andb_true_iff in H as [_ H]
                end ]
      | unfold well_sized;
        first [ apply length_zeros | apply length_fortran_zeros ] ]
  end.

Lemma result_form_wp o c st :
  valid_refs (heap st) c ->
  wp (run_entry o c) st
     (fun r st' =>
        match r with
        | Ok y =>
            exists ay, heap st' !! y = Some ay /\ well_sized ay
                       /\ is_float64 ay = true /\ f_contiguous ay = true
        | Raise _ => True
        end).
Proof.
  destruct st as [h cs]. cbn [heap calls].
  destruct c; intros Hv; cbn [run_entry].
  8: destruct ws, ps.
  all: use_refs Hv.
  all: repeat wp_step; cbv beta iota.
  all: first [ exact I | dr_absurd | str_absurd | form_leaf ].
Qed.

(** X13: The array an entry point returns is well formed (as many entries as
    its shape announces) and already in the form every entry point
    converts its signal to: float64 and Fortran contiguous. *)
Theorem result_is_solver_ready o c st y :
  valid_refs (heap st) c ->
  fst (run_entry o c st) = Ok y ->
  exists ay,
    heap (snd (run_entry o c st)) !! y = Some ay /\
    well_sized ay /\
    forall c', needs_no_copy c' ay = true.
Proof.
  intros Hv Hy. pose proof (result_form_wp o c st Hv) as H. unfold wp in H.
  rewrite Hy in H. destruct H as (ay & Hay & Hw & Hf & Hc).
  exists ay. split; [exact Hay|]. split; [exact Hw|].
  intros c'. unfold needs_no_copy. rewrite Hf, Hc. now rewrite orb_true_r.
Qed.

(** X14: Entry points compose without conversion: when the result [y] of one
    call is the signal of a second call, the second solver reads [y]
    itself. *)
Theorem result_feeds_back o c1 c2 st y y2 :
  valid_refs (heap st) c1 ->
  fst (run_entry o c1 st) = Ok y ->
  signal_of c2 = y ->
  valid_refs (heap (snd (run_entry o c1 st))) c2 ->
  fst (run_entry o c2 (snd (run_entry o c1 st))) = Ok y2 ->
  exists args_m,
    calls (snd (run_entry o c2 (snd (run_entry o c1 st))))
    = calls (snd (run_entry o c1 st)) ++ [mk_call (chosen_solver c2) args_m] /\
    args_m !! sig_in (lib_sig (chosen_solver c2)) = Some (CPtr y).
Proof.
  intros Hv1 Hy Hsig Hv2 Hy2.
  pose proof (result_form_wp o c1 st Hv1) as H1. unfold wp in H1.
  rewrite Hy in H1. destruct H1 as (ay & Hay & _ & Hf & Hc).
  rewrite <- Hsig in Hay.
  pose proof (signal_wp o c2 _ ay Hv2 Hay) as H2. unfold wp in H2.
  rewrite Hy2 in H2.
  destruct H2 as (fn & args_m & px & axf & Hcalls & -> & Hin & _ & _ & _ & Hpx).
  unfold needs_no_copy in Hpx. rewrite Hf, Hc, orb_true_r in Hpx. cbn in Hpx.
  exists args_m. split; [exact Hcalls|]. congruence.
Qed.
(** ** The status code of the solver *)

Lemma call_state_same o1 o2 fn args st :
  same_writes o1 o2 ->
  snd (_call o1 fn args st) = snd (_call o2 fn args st).
Proof.
  intros Hs. unfold _call, native_run. cbn [snd heap calls].
  destruct (Hs fn (map cast_arg args) (heap st)) as [-> ->]. reflexivity.
Qed.

Ltac same_run_leaf :=
  cbn [continue ret];
  first [ reflexivity
        | f_equal; first [ reflexivity | now apply call_state_same ] ].

(** X15: The integer a solver returns is discarded: with two solvers that
    write the same solution and diagnostics and return different status
    codes, a run is the same in its result and in the store it leaves. An
    entry point has no error path after its solver call. *)
Theorem status_code_ignored o1 o2 c st :
  same_writes o1 o2 ->
  run_entry o1 c st = run_entry o2 c st.
Proof.
  intros Hs.
  change (wp2 (run_entry o1 c) (run_entry o2 c) st (fun rs1 rs2 => rs1 = rs2)).
  destruct st as [h cs].
  destruct c; cbn [run_entry].
  8: destruct ws, ps.
  all: repeat step2.
  all: same_run_leaf.
Qed.
(** ** Failed assertions *)

(** [float(w)] fails with OverflowError, not with a failed assertion *)
Ltac overflow_leaf :=
  match goal with
  | E : float_value ?w = Raise _ |- _ =>
      let Ha := fresh "Ha" in
      destruct (float_value_cases w) as [[? Ha]|Ha]; rewrite Ha in E;
      first [ discriminate E | injection E as <-; discriminate ]
  end.

Lemma assertion_wp o c st :
  wp (run_entry o c) st (fun r st' => r = Raise AssertionError -> st' = st).
Proof.
  destruct st as [h cs].
  destruct c; cbn [run_entry].
  8: destruct ws, ps.
  all: repeat wp_step; cbv beta iota.
  all: first [ reflexivity | discriminate | overflow_leaf ].
Qed.

(** X16: Every assertion of an entry point comes before its first allocation:
    a call that ends in AssertionError leaves the store exactly as it
    found it, with no array created and no solver invoked. *)
Theorem failed_assertion_changes_nothing o c st :
  fst (run_entry o c st) = Raise AssertionError ->
  snd (run_entry o c st) = st.
Proof. apply (wp_run _ _ _ (assertion_wp o c st)). Qed.

(** ** One solver call *)

(** X17: A run of an entry point invokes exactly one solver, the one its
    dispatch selects, when it returns, and none when it raises: no
    exception is raised once a solver has run. *)
Theorem one_solver_call_per_run o c st :
  valid_refs (heap st) c ->
  match fst (run_entry o c st) with
  | Ok _ => exists args_m,
              new_calls st (run_entry o c st) = [mk_call (chosen_solver c) args_m]
  | Raise _ => new_calls st (run_entry o c st) = []
  end.
Proof.
  intros Hv. unfold new_calls.
  destruct (fst (run_entry o c st)) as [y|e] eqn:E.
  - destruct (return_after_one_call o c st y Hv E) as (args_m & Hc & _).
    exists args_m. now rewrite Hc, drop_app_length.
  - rewrite (raise_without_call o c st e Hv E). apply drop_all.
Qed.

(** ** Arguments that do not reach the solver *)

(** X18: [sigma] is used by the projected Newton solvers alone, and
    [n_threads] of [tv1_2d] by Douglas-Rachford and Proximal Dykstra
    alone: with any other method the run is the same for every value of
    the argument. *)
Theorem unused_tolerance_and_threads o x st :
  (forall w method s1 s2, method <> "pn" ->
     tv1_1d o x w s1 method st = tv1_1d o x w s2 method st) /\
  (forall w s1 s2,
     tv1w_1d o x w "tautstring" s1 st = tv1w_1d o x w "tautstring" s2 st) /\
  (forall w t1 t2 max_iters method, method <> "dr" -> method <> "pd" ->
     tv1_2d o x w t1 max_iters method st = tv1_2d o x w t2 max_iters method st).
Proof.
  split; [|split].
  - intros w method s1 s2 Hm. apply String.eqb_neq in Hm.
    unfold tv1_1d. now rewrite Hm.
  - intros w s1 s2. reflexivity.
  - intros w t1 t2 max_iters method Hdr Hpd.
    apply String.eqb_neq in Hdr, Hpd.
    unfold tv1_2d. now rewrite Hdr, Hpd.
Qed.

(** ** The dispatch condition of [tvgen] *)

(** X19: [len(ds) == 2 & ds[0] == 1 & ds[1] == 2] is never true: on the empty
    list it raises IndexError (it reads [ds[0]]), on every other list it
    is false, and the store is not touched. *)
Theorem dr_condition_never_true ds st :
  dr_condition ds st
  = (match ds with [] => Raise IndexError | _ :: _ => Ok false end, st).
Proof.
  destruct ds as [|d0 [|d1 rest]]; [reflexivity | |].
  - assert (E : (Z.of_nat (length [d0]) =? Z.land 2 d0) = false).
    { apply Z.eqb_neq. cbn [length Z.of_nat Pos.of_succ_nat]. intros H.
      symmetry in H. now apply land_2_ne_1 in H. }
    unfold dr_condition, bind, list_getitem, ret.
    cbn [lookup list_lookup]. now rewrite E.
  - unfold dr_condition, bind, list_getitem, ret.
    cbn [lookup list_lookup].
    destruct (negb (Z.of_nat (length (d0 :: d1 :: rest)) =? Z.land 2 d0));
      [reflexivity|].
    destruct (negb (Z.land 2 d0 =? Z.land 1 d1)); [reflexivity|].
    now rewrite land_1_ne_2.
Qed.
(** ** Threads and iteration cap *)

Ltac slots_leaf :=
  lazymatch goal with
  | Hc : calls ?st' = _ |- exists fn args_m, calls ?st' = _ /\ _ =>
      eexists _, _; split; [exact Hc|];
      cbn [thread_slot sig_maxit lib_sig threads_of cap_of map cast_arg VInt];
      split; intros i n Hi Hn;
      first [ discriminate Hi
            | injection Hi as <-; injection Hn as <-; reflexivity ]
  end.

Lemma slots_wp o c st :
  valid_refs (heap st) c ->
  wp (run_entry o c) st
     (fun r st' =>
        match r with
        | Ok _ =>
            exists fn args_m,
              calls st' = calls st ++ [mk_call fn args_m] /\
              (forall i n, thread_slot fn = Some i -> threads_of c = Some n ->
                 args_m !! i = Some (CNum (SInt n))) /\
              (forall i n, sig_maxit (lib_sig fn) = Some i -> cap_of c = Some n ->
                 args_m !! i = Some (CNum (SInt n)))
        | Raise _ => True
        end).
Proof.
  destruct st as [h cs]. cbn [heap calls].
  destruct c; intros Hv; cbn [run_entry].
  8: destruct ws, ps.
  all: use_refs Hv.
  all: repeat wp_step; cbv beta iota.
  all: first [ exact I | dr_absurd | str_absurd | slots_leaf ].
Qed.

(** X20: [n_threads] reaches the solver in the parameter its declaration names
    [nThreads] or [ncores], and [max_iters] in the one it names [maxit] or
    [maxIters], in every entry point that has the argument and calls a
    solver with such a parameter; [tv1w_2d] lists the two in the other
    order and still passes each to its own parameter. *)
Theorem threads_and_cap_in_their_slots o c st y :
  valid_refs (heap st) c ->
  fst (run_entry o c st) = Ok y ->
  exists fn args_m,
    calls (snd (run_entry o c st)) = calls st ++ [mk_call fn args_m] /\
    (forall i n, thread_slot fn = Some i -> threads_of c = Some n ->
       args_m !! i = Some (CNum (SInt n))) /\
    (forall i n, sig_maxit (lib_sig fn) = Some i -> cap_of c = Some n ->
       args_m !! i = Some (CNum (SInt n))).
Proof.
  intros Hv Hy. pose proof (slots_wp o c st Hv) as H. unfold wp in H.
  rewrite Hy in H. exact H.
Qed.

(** ** What [tvgen] tells the Dykstra solvers *)

Ltac terms_leaf :=
  lazymatch goal with
  | Hc : calls ?st' = _ |- exists fn args_m, calls ?st' = _ /\ _ =>
      eexists _, _; split; [exact Hc|];
      cbn [map cast_arg VInt lookup list_lookup];
      repeat match goal with
             | H : (_ =? _) = true |- _ => apply Z.eqb_eq in H
             end;
      repeat split; congruence
  end.

(** X21: A returning call of [tvgen] has handed its solver, in the parameters
    the declaration names [dims], [ns], [nds] and [npen]: the list [ds] as
    it was given, the shape of [x], the rank of [x], and the number of
    penalty terms, which is the common length of [ws], [ds] and [ps].
    ([np.asfortranarray] gives an array without axes one axis; the
    statement is about signals with at least one axis.) *)
Theorem tvgen_describes_problem o x ws ds ps n_threads max_iters st y ax :
  valid_refs (heap st) (Call_tvgen x ws ds ps n_threads max_iters) ->
  heap st !! x = Some ax -> shape ax <> [] ->
  fst (tvgen o x ws ds ps n_threads max_iters st) = Ok y ->
  exists fn args_m,
    calls (snd (tvgen o x ws ds ps n_threads max_iters st))
    = calls st ++ [mk_call fn args_m] /\
    args_m !! 3%nat = Some (CSeq (map SInt ds)) /\
    args_m !! 6%nat = Some (CSeq (map SInt (shape ax))) /\
    args_m !! 7%nat = Some (CNum (SInt (Z.of_nat (length (shape ax))))) /\
    args_m !! 8%nat = Some (CNum (SInt (Z.of_nat (length ds)))).
Proof.
  intros Hv Hx _ Hy.
  assert (H : wp (tvgen o x ws ds ps n_threads max_iters) st
                (fun r st' =>
                   match r with
                   | Ok _ =>
                       exists fn args_m,
                         calls st' = calls st ++ [mk_call fn args_m] /\
                         args_m !! 3%nat = Some (CSeq (map SInt ds)) /\
                         args_m !! 6%nat = Some (CSeq (map SInt (shape ax))) /\
                         args_m !! 7%nat
                         = Some (CNum (SInt (Z.of_nat (length (shape ax))))) /\
                         args_m !! 8%nat
                         = Some (CNum (SInt (Z.of_nat (length ds))))
                   | Raise _ => True
                   end)).
  { clear Hy. destruct st as [h cs]. cbn [heap calls] in *.
    destruct ws, ps; use_refs Hv; unify_lookups;
      repeat wp_step; cbv beta iota;
      first [ exact I | dr_absurd | terms_leaf ]. }
  unfold wp in H. rewrite Hy in H. exact H.
Qed.
(** ** The exceptions of the entry points *)

Ltac raise_leaf :=
  lazymatch goal with
  | |- Raise ?e = Raise _ -> _ =>
      let H := fresh in
      intros H; injection H as <-;
      cbn [may_raise];
      repeat (apply elem_of_cons; first [ left; reflexivity | right ])
  | |- Ok _ = Raise _ -> _ => discriminate
  end.

Ltac overflow_raise :=
  match goal with
  | E : float_value ?w = Raise _ |- _ =>
      let Ha := fresh "Ha" in
      destruct (float_value_cases w) as [[? Ha]|Ha]; rewrite Ha in E;
      [ discriminate E | injection E as <- ]
  end.

Lemma may_raise_wp o c st :
  valid_refs (heap st) c ->
  wp (run_entry o c) st (fun r _ => forall e, r = Raise e -> e ∈ may_raise c).
Proof.
  destruct st as [h cs]. cbn [heap].
  destruct c; intros Hv; cbn [run_entry].
  8: destruct ws, ps.
  all: use_refs Hv.
  all: repeat wp_step; cbv beta iota; intros e0.
  all: try overflow_raise.
  all: first [ dr_absurd | str_absurd | raise_leaf ].
Qed.

(** X22: The exceptions an entry point can end in are those of [may_raise]:
    failed assertions everywhere, OverflowError where a scalar is
    converted, IndexError where [x.shape[1]] or [ds[0]] is read, ValueError
    where [x.shape] is unpacked, TypeError and AttributeError where
    [tvgen] takes [len] and [.dtype] of its weights. The lookup
    [methods[method]] of [tvp_1d] never raises KeyError: it comes after
    the membership assertion. *)
Theorem exceptions_of_entry_points o c st e :
  valid_refs (heap st) c ->
  fst (run_entry o c st) = Raise e ->
  e ∈ may_raise c.
Proof.
  intros Hv. apply (wp_run _ _ _ (may_raise_wp o c st Hv)).
Qed.

(** ** Declared and never called *)

Lemma chosen_solver_reachable c :
  chosen_solver c <> OGP_TVp /\ chosen_solver c <> FISTA_TVp.
Proof.
  destruct c; cbn [chosen_solver];
    repeat match goal with
           | |- context [if ?b then _ else _] => destruct b
           end;
    split; discriminate.
Qed.

(** X23: [OGP_TVp] and [FISTA_TVp] are declared to cffi and reached by no
    entry point, whatever the method string is. *)
Theorem declared_but_never_called o c st :
  valid_refs (heap st) c ->
  Forall (fun nc => nc_fn nc <> OGP_TVp /\ nc_fn nc <> FISTA_TVp)
    (new_calls st (run_entry o c st)).
Proof.
  intros Hv. unfold new_calls.
  destruct (fst (run_entry o c st)) as [y|e] eqn:E.
  - destruct (return_after_one_call o c st y Hv E) as (args_m & Hc & _).
    rewrite Hc, drop_app_length.
    apply List.Forall_cons; [|apply List.Forall_nil].
    apply chosen_solver_reachable.
  - rewrite (raise_without_call o c st e Hv E), drop_all. apply List.Forall_nil.
Qed.

(** ** [force_float_scalar] *)

(** X24: [force_float_scalar] touches no array; when it returns, the value is
    a float that a second application hands back as it is; it fails only
    on an integer, with OverflowError. *)
Theorem force_float_scalar_yields_float x st :
  snd (force_float_scalar x st) = st /\
  match fst (force_float_scalar x st) with
  | Ok v => isinstance_float v = true /\ force_float_scalar v st = (Ok v, st)
  | Raise e => e = OverflowError /\ exists z, x = SInt z
  end.
Proof.
  rewrite force_float_scalar_run. cbn [fst snd]. split; [reflexivity|].
  unfold float_value, force_float_scalar, py_float.
  destruct x as [z|f|b]; cbn.
  - destruct (float_of_Z z); cbn; eauto.
  - auto.
  - auto.
Qed.
(** ** The weight arrays handed to the solver *)

Ltac weight_array :=
  lazymatch goal with
  | Hst : ?st' = snd (_call _ _ _ _), Hp : ?h !! ?p = Some ?a0
    |- exists p' a', _ !! _ = Some (CPtr p') /\ _ =>
      match goal with
      | Href : h !! p = Some ?a |- _ =>
          lazymatch a with
          | a0 => fail
          | _ => rewrite Href in Hp; injection Hp as <-
          end
      end;
      eexists _, _; split; [reflexivity|];
      split; [rewrite Hst, call_heap_other; [cbn [heap]; find_lookup | not_target]|];
      split; [first [reflexivity | assumption]|];
      norm_tests;
      split;
      [ unfold weight_entries; cbn [fortran_weights data astype_float fortran_copy];
        first [ reflexivity
              | apply data_float64; assumption
              | apply entries_contiguous; assumption ]
      | unfold weight_as_is; cbn [fortran_weights negb orb];
        repeat match goal with
               | H : is_float64 _ = _ |- _ => rewrite H
               | H : is_float64 _ && _ = _ |- _ => rewrite H
               end;
        cbn [andb];
        first [ reflexivity | apply lookup_ge_None; len_tac ] ]
  end.

Ltac arrays_leaf :=
  lazymatch goal with
  | Hc : calls ?st' = _ |- exists fn args_m, calls ?st' = _ /\ _ =>
      eexists _, _; split; [exact Hc|]; split; [solver_tac|];
      cbn [array_args val_refs map app];
      let i := fresh "i" in let p := fresh "p" in let a0 := fresh "a0" in
      let Hin := fresh "Hin" in let Hp := fresh "Hp" in
      intros i p a0 Hin Hp;
      repeat (apply elem_of_cons in Hin as [Hin|Hin];
              [injection Hin as -> ->; weight_array|]);
      now apply elem_of_nil in Hin
  end.

Lemma weights_wp o c st :
  valid_refs (heap st) c ->
  wp (run_entry o c) st
     (fun r st' =>
        match r with
        | Ok _ =>
            exists fn args_m,
              calls st' = calls st ++ [mk_call fn args_m] /\
              fn = chosen_solver c /\
              forall i p a, (i, p) ∈ array_args c -> heap st !! p = Some a ->
                exists p' a',
                  args_m !! i = Some (CPtr p') /\
                  heap st' !! p' = Some a' /\
                  shape a' = shape a /\
                  data a' = F64 (weight_entries c a) /\
                  (if weight_as_is c a then p' = p else heap st !! p' = None)
        | Raise _ => True
        end).
Proof.
  destruct st as [h cs]. cbn [heap calls].
  destruct c; intros Hv; cbn [run_entry].
  8: destruct ws, ps.
  all: use_refs Hv.
  all: bound_refs.
  all: repeat wp_step; cbv beta iota.
  all: first [ exact I | dr_absurd | str_absurd | arrays_leaf ].
Qed.

(** X25: The weight arrays of [tv1w_1d] and [tv1w_2d] and the weight and norm
    arrays of [tvgen] reach the solver, each in the parameter meant for
    it, with their shape and their entries converted to float64 (in
    column-major order in [tv1w_2d]); an array already in that form is
    passed as it is, any other as a new array. *)
Theorem weight_arrays_passed_converted o c st y i p a :
  valid_refs (heap st) c ->
  fst (run_entry o c st) = Ok y ->
  (i, p) ∈ array_args c -> heap st !! p = Some a ->
  exists args_m p' a',
    calls (snd (run_entry o c st))
    = calls st ++ [mk_call (chosen_solver c) args_m] /\
    args_m !! i = Some (CPtr p') /\
    heap (snd (run_entry o c st)) !! p' = Some a' /\
    shape a' = shape a /\
    data a' = F64 (weight_entries c a) /\
    (if weight_as_is c a then p' = p else heap st !! p' = None).
Proof.
  intros Hv Hy Hin Hp. pose proof (weights_wp o c st Hv) as H. unfold wp in H.
  rewrite Hy in H. destruct H as (fn & args_m & Hc & -> & H).
  destruct (H i p a Hin Hp) as (p' & a' & H').
  exists args_m, p', a'. split; [exact Hc | exact H'].
Qed.
(** ** Column-major order *)

Lemma unravel_ravel_F sh idx :
  in_range sh idx -> unravel_F sh (ravel_F sh idx) = idx.
Proof.
  induction 1 as [|d i ds rest Hi _ IH]; [reflexivity|].
  cbn [ravel_F unravel_F].
  assert (Hm : (i + d * ravel_F ds rest) mod d = i).
  { rewrite Z.mul_comm, Z_mod_plus_full. apply Z.mod_small. exact Hi. }
  assert (Hd : (i + d * ravel_F ds rest) / d = ravel_F ds rest).
  { rewrite Z.mul_comm, Z_div_plus_full by lia.
    rewrite Z.div_small by exact Hi. reflexivity. }
  now rewrite Hm, Hd, IH.
Qed.

Lemma ravel_F_bound sh idx :
  in_range sh idx -> 0 <= ravel_F sh idx < size_of sh.
Proof.
  induction 1 as [|d i ds rest Hi _ IH]; cbn [ravel_F size_of fold_right]; [lia|].
  change (fold_right Z.mul 1 ds) with (size_of ds). nia.
Qed.

Lemma ravel_C_acc sh idx acc :
  in_range sh idx -> ravel_C sh idx acc = acc * size_of sh + ravel_C sh idx 0.
Proof.
  intros H. revert acc.
  induction H as [|d i ds rest Hi _ IH]; intros acc;
    cbn [ravel_C size_of fold_right]; [lia|].
  change (fold_right Z.mul 1 ds) with (size_of ds).
  rewrite (IH (acc * d + i)), (IH (0 * d + i)). ring.
Qed.

Lemma nth_relayout_F {A : Type} (dflt : A) sh mem k :
  (k < length mem)%nat ->
  nth k (relayout_F dflt sh mem) dflt = nth (c_offset sh k) mem dflt.
Proof.
  intros Hk. unfold relayout_F.
  rewrite (nth_indep _ dflt (nth (c_offset sh 0) mem dflt))
    by now rewrite length_map, length_seq.
  rewrite (map_nth (fun k => nth (c_offset sh k) mem dflt)).
  now rewrite seq_nth.
Qed.

(** all extents are 1 *)
Lemma ravel_ones sh idx :
  in_range sh idx ->
  List.filter (fun d : Z => negb (Z.eqb d 1)) sh = [] ->
  ravel_F sh idx = 0 /\ ravel_C sh idx 0 = 0 /\ size_of sh = 1.
Proof.
  induction 1 as [|d i ds rest Hi _ IH]; cbn [List.filter]; [auto|].
  destruct (negb (d =? 1)) eqn:E; [discriminate|].
  apply negb_false_iff, Z.eqb_eq in E. subst d. intros Hf.
  destruct (IH Hf) as (HF & HC & HS).
  assert (i = 0) by lia. subst i.
  cbn [ravel_F ravel_C size_of fold_right].
  change (fold_right Z.mul 1 ds) with (size_of ds).
  rewrite HF, HS. cbn. auto.
Qed.

(** with at most one extent other than 1 the two orders coincide *)
Lemma ravel_both_contiguous sh idx :
  in_range sh idx -> both_contiguous sh = true ->
  ravel_F sh idx = ravel_C sh idx 0.
Proof.
  intros Hr Hb. unfold both_contiguous in Hb.
  apply orb_true_iff in Hb as [Hz|Hc].
  - exfalso. apply existsb_exists in Hz as (d & Hd & Hd0).
    apply Z.eqb_eq in Hd0. subst d.
    clear -Hr Hd. induction Hr as [|d i ds rest Hi _ IH]; [destruct Hd|].
    destruct Hd as [->|Hd]; [lia | auto].
  - apply Nat.leb_le in Hc.
    induction Hr as [|d i ds rest Hi Hr IH]; [reflexivity|].
    cbn [List.filter] in Hc. cbn [ravel_F ravel_C].
    destruct (negb (d =? 1)) eqn:E.
    + cbn [length] in Hc.
      assert (Hnil : List.filter (fun d : Z => negb (Z.eqb d 1)) ds = []).
      { destruct (List.filter _ ds); [reflexivity | cbn in Hc; lia]. }
      destruct (ravel_ones ds rest Hr Hnil) as (HF & HC & HS).
      rewrite (ravel_C_acc ds rest _ Hr), HF, HC, HS. lia.
    + apply negb_false_iff, Z.eqb_eq in E. subst d.
      assert (i = 0) by lia. subst i.
      rewrite IH by exact Hc. change (0 * 1 + 0) with 0. lia.
Qed.

Lemma fortran_entries_column_major a idx :
  well_sized a -> in_range (shape a) idx ->
  nth (Z.to_nat (ravel_F (shape a) idx)) (fortran_entries a) F0 = entry_at a idx.
Proof.
  intros Hw Hr. unfold entry_at, fortran_entries, f_contiguous.
  pose proof (ravel_F_bound _ _ Hr) as Hb.
  destruct (order a).
  - destruct (both_contiguous (shape a)) eqn:E.
    + now rewrite (ravel_both_contiguous _ _ Hr E).
    + rewrite nth_relayout_F.
      * unfold c_offset. rewrite Z2Nat.id by lia.
        now rewrite (unravel_ravel_F _ _ Hr).
      * rewrite length_to_float64. unfold well_sized in Hw. rewrite Hw. lia.
  - reflexivity.
Qed.

(** X26: The library works on column-major buffers and the entry points
    convert to that format: in [tv1_2d], [tv1w_2d], [tvp_2d] and [tvgen]
    the solver finds the entry [x[idx]] of a well-formed signal at the
    column-major offset of [idx], as a double, whatever the layout and the
    dtype of [x] are. *)
Theorem solver_reads_column_major o c st y ax idx :
  valid_refs (heap st) c ->
  heap st !! signal_of c = Some ax ->
  flat_result c = false -> well_sized ax -> in_range (shape ax) idx ->
  fst (run_entry o c st) = Ok y ->
  exists args_m px axf l,
    calls (snd (run_entry o c st))
    = calls st ++ [mk_call (chosen_solver c) args_m] /\
    args_m !! sig_in (lib_sig (chosen_solver c)) = Some (CPtr px) /\
    heap (snd (run_entry o c st)) !! px = Some axf /\
    data axf = F64 l /\
    nth (Z.to_nat (ravel_F (shape ax) idx)) l F0 = entry_at ax idx.
Proof.
  intros Hv Hx Hflat Hw Hr Hy.
  pose proof (signal_wp o c st ax Hv Hx) as H. unfold wp in H.
  rewrite Hy in H.
  destruct H as (fn & args_m & px & axf & Hc & -> & Hin & Hpx & _ & Hd & _).
  exists args_m, px, axf, (fortran_entries ax).
  split; [exact Hc|]. split; [exact Hin|]. split; [exact Hpx|]. split.
  - unfold passed_entries in Hd. now rewrite Hflat in Hd.
  - now apply fortran_entries_column_major.
Qed.
(** ** Reading the result back *)

Lemma entry_at_column_major a idx :
  f_contiguous a = true -> in_range (shape a) idx ->
  entry_at a idx
  = nth (Z.to_nat (ravel_F (shape a) idx)) (to_float64 (data a)) F0.
Proof.
  intros Hc Hr. unfold entry_at, f_contiguous in *.
  destruct (order a); [|reflexivity].
  now rewrite (ravel_both_contiguous _ _ Hr Hc).
Qed.

(** X27: The array an entry point returns presents the buffer its solver
    filled in the order the solver filled it: [y[idx]] is the double at
    the column-major offset of [idx]. *)
Theorem result_read_column_major o c st y :
  valid_refs (heap st) c ->
  fst (run_entry o c st) = Ok y ->
  exists ay l,
    heap (snd (run_entry o c st)) !! y = Some ay /\
    data ay = F64 l /\
    forall idx, in_range (shape ay) idx ->
      entry_at ay idx = nth (Z.to_nat (ravel_F (shape ay) idx)) l F0.
Proof.
  intros Hv Hy. pose proof (result_form_wp o c st Hv) as H. unfold wp in H.
  rewrite Hy in H. destruct H as (ay & Hay & _ & Hf & Hc).
  exists ay, (to_float64 (data ay)). split; [exact Hay|]. split.
  - now apply data_float64.
  - intros idx Hr. now apply entry_at_column_major.
Qed.

Lemma call_ready_valid_refs h c : call_ready h c -> valid_refs h c.
Proof.
  intros Hr. apply valid_refs_intro.
  destruct c; cbn [call_ready refs_of val_refs app] in *; unfold signal_at in Hr;
    repeat match type of Hr with
           | _ /\ _ => let H := fresh "H" in destruct Hr as [H Hr]
           | exists _, _ => destruct Hr as [? Hr]
           end;
    repeat match goal with
           | H : exists _, _ |- _ => destruct H as [? H]
           | H : _ /\ _ |- _ => destruct H as [? ?]
           end;
    subst; cbn [val_refs app];
    (let q := fresh "q" in
     let Hq := fresh "Hq" in
     intros q Hq;
     repeat (apply elem_of_cons in Hq as [->|Hq]; [eexists; eassumption|]);
     now apply elem_of_nil in Hq).
Qed.

(** X28: The round trip through the column-major conversion: with all weights
    zero, where the solver leaves its input as the solution, the returned
    array has the shape of [x] and at every index the entry of [x], as a
    double, whatever the layout and the dtype of [x] are. (The signal has
    at least one axis: [np.asfortranarray] gives an array without axes
    one.) *)
Theorem zero_weight_keeps_every_entry o c st ax :
  call_ready (heap st) c ->
  zero_weight (heap st) c ->
  heap st !! signal_of c = Some ax -> shape ax <> [] ->
  exists y ay,
    fst (run_entry o c st) = Ok y /\
    heap (snd (run_entry o c st)) !! y = Some ay /\
    shape ay = shape ax /\
    forall idx, in_range (shape ax) idx -> entry_at ay idx = entry_at ax idx.
Proof.
  intros Hr Hz Hx _.
  destruct (wp_run _ _ _ (identity_at_zero_wp o c st ax Hr Hz Hx))
    as (y & ay & Hy & Hay & Hs & Hd).
  pose proof (result_form_wp o c st (call_ready_valid_refs _ _ Hr)) as H.
  unfold wp in H. rewrite Hy in H.
  destruct H as (ay' & Hay' & _ & _ & Hc).
  assert (ay' = ay) by congruence. subst ay'.
  exists y, ay. repeat split; try assumption.
  intros idx Hi.
  rewrite entry_at_column_major by (try rewrite Hs; assumption).
  rewrite Hs, Hd. cbn [to_float64].
  apply fortran_entries_column_major; [|exact Hi].
  clear -Hr Hx. destruct c; cbn [call_ready signal_of] in *; unfold signal_at in Hr;
    repeat match type of Hr with
           | _ /\ _ => let H := fresh "H" in destruct Hr as [H Hr]
           | exists _, _ => destruct Hr as [? Hr]
           end;
    repeat match goal with
           | H : exists _, _ |- _ => destruct H as [? H]
           | H : _ /\ _ |- _ => destruct H as [? ?]
           end;
    congruence.
Qed.
(** ** The contracts and the marshalling theorems at concrete calls *)

Lemma float_ok_one : float_ok (SInt 1).
Proof. eexists. reflexivity. Qed.

Lemma float_ok_two : float_ok (SInt 2).
Proof. eexists. reflexivity. Qed.

Lemma valid_refs_signal3 : valid_refs (heap st_signal3) tv2_call.
Proof. repeat constructor. eexists. reflexivity. Qed.

Lemma valid_refs_int3 : valid_refs (heap st_int3) tv2_call.
Proof. repeat constructor. eexists. reflexivity. Qed.

Lemma valid_refs_axes : valid_refs (heap st_axes) axes_call.
Proof. repeat constructor; eexists; reflexivity. Qed.

Lemma valid_refs_weighted : valid_refs (heap st_weighted) weighted_call.
Proof. repeat constructor; eexists; reflexivity. Qed.

Lemma tv1_1d_contract_witness :
  heap st_signal3 !! 0%nat = Some (vec [fl 1; fl 2; fl 3]) /\
  tv1_1d quiet_oracle 0%nat (SInt (-1)) (SFloat sigma_default) "condat" st_signal3
  = (Raise AssertionError, st_signal3) /\
  exists y args_m,
    fst (tv1_1d quiet_oracle 0%nat (SInt 1) (SFloat sigma_default) "condat"
           st_signal3) = Ok y /\
    calls (snd (tv1_1d quiet_oracle 0%nat (SInt 1) (SFloat sigma_default) "condat"
                  st_signal3))
    = calls st_signal3 ++ [mk_call TV1D_denoise args_m].
Proof.
  split; [reflexivity|]. split.
  - apply (proj1 (tv1_1d_contract quiet_oracle 0%nat (SInt (-1))
                    (SFloat sigma_default) "condat" st_signal3 _ eq_refl)).
    right. reflexivity.
  - apply (proj2 (proj2 (tv1_1d_contract quiet_oracle 0%nat (SInt 1)
                           (SFloat sigma_default) "condat" st_signal3 _ eq_refl)
                    eq_refl eq_refl)).
    exact float_ok_one.
Defined.

Lemma tv1w_1d_contract_witness :
  heap st_signal3 !! 0%nat = Some (vec [fl 1; fl 2; fl 3]) /\
  heap st_signal3 !! 1%nat = Some (vec [fl 1; fl 1]) /\
  tv1w_1d quiet_oracle 0%nat 0%nat "pn" (SFloat sigma_default) st_signal3
  = (Raise AssertionError, st_signal3) /\
  exists y args_m,
    fst (tv1w_1d quiet_oracle 0%nat 1%nat "pn" (SFloat sigma_default) st_signal3)
    = Ok y /\
    calls (snd (tv1w_1d quiet_oracle 0%nat 1%nat "pn" (SFloat sigma_default)
                  st_signal3))
    = calls st_signal3 ++ [mk_call PN_TV1_Weighted args_m].
Proof.
  split; [reflexivity|]. split; [reflexivity|]. split.
  - apply (proj1 (tv1w_1d_contract quiet_oracle 0%nat 0%nat "pn"
                    (SFloat sigma_default) st_signal3 _ _ eq_refl eq_refl)).
    right. discriminate.
  - apply (proj1 (proj2 (tv1w_1d_contract quiet_oracle 0%nat 1%nat "pn"
                           (SFloat sigma_default) st_signal3 _ _ eq_refl eq_refl)));
      reflexivity.
Defined.

Lemma tv2_1d_contract_witness :
  heap st_signal3 !! 0%nat = Some (vec [fl 1; fl 2; fl 3]) /\
  tv2_1d quiet_oracle 0%nat (SInt 1) "newton" st_signal3
  = (Raise AssertionError, st_signal3) /\
  exists y args_m,
    fst (tv2_1d quiet_oracle 0%nat (SInt 1) "pg" st_signal3) = Ok y /\
    calls (snd (tv2_1d quiet_oracle 0%nat (SInt 1) "pg" st_signal3))
    = calls st_signal3 ++ [mk_call PG_TV2 args_m].
Proof.
  split; [reflexivity|]. split.
  - apply (proj1 (tv2_1d_contract quiet_oracle 0%nat (SInt 1) "newton"
                    st_signal3 _ eq_refl)).
    right. reflexivity.
  - apply (proj2 (proj2 (tv2_1d_contract quiet_oracle 0%nat (SInt 1) "pg"
                           st_signal3 _ eq_refl) eq_refl eq_refl)).
    exact float_ok_one.
Defined.

Lemma tvp_1d_contract_witness :
  heap st_signal3 !! 0%nat = Some (vec [fl 1; fl 2; fl 3]) /\
  tvp_1d quiet_oracle 0%nat (SInt 1) (SInt 0) "fw" 0 st_signal3
  = (Raise AssertionError, st_signal3) /\
  exists y args_m,
    fst (tvp_1d quiet_oracle 0%nat (SInt 1) (SInt 2) "fw" 0 st_signal3) = Ok y /\
    calls (snd (tvp_1d quiet_oracle 0%nat (SInt 1) (SInt 2) "fw" 0 st_signal3))
    = calls st_signal3 ++ [mk_call FW_TVp args_m].
Proof.
  split; [reflexivity|]. split.
  - apply (proj1 (tvp_1d_contract quiet_oracle 0%nat (SInt 1) (SInt 0) "fw" 0
                    st_signal3 _ eq_refl)).
    right. right. reflexivity.
  - apply (proj2 (proj2 (tvp_1d_contract quiet_oracle 0%nat (SInt 1) (SInt 2) "fw" 0
                           st_signal3 _ eq_refl) eq_refl eq_refl eq_refl)).
    + exact float_ok_one.
    + exact float_ok_two.
Defined.

Lemma tv1_2d_contract_witness :
  heap st_axes !! 0%nat = Some mat22 /\
  (2 <= length (shape mat22))%nat /\
  exists y args_m,
    fst (tv1_2d quiet_oracle 0%nat (SInt 1) 1 0 "yang" st_axes) = Ok y /\
    calls (snd (tv1_2d quiet_oracle 0%nat (SInt 1) 1 0 "yang" st_axes))
    = calls st_axes ++ [mk_call Yang2_TV args_m].
Proof.
  split; [reflexivity|]. split; [cbn; lia|].
  apply (proj2 (proj2 (proj2 (tv1_2d_contract quiet_oracle 0%nat (SInt 1) 1 0 "yang"
                                st_axes _ eq_refl) eq_refl eq_refl))).
  - exact float_ok_one.
  - left. cbn. lia.
Defined.

Lemma tvp_2d_contract_witness :
  heap st_axes !! 0%nat = Some mat22 /\
  tvp_2d quiet_oracle 0%nat (SInt 1) (SInt 1) (SInt 2) (SFloat (fl 0)) 1 0 st_axes
  = (Raise AssertionError, st_axes) /\
  exists y args_m,
    fst (tvp_2d quiet_oracle 0%nat (SInt 1) (SInt 1) (SInt 2) (SInt 2) 1 0 st_axes)
    = Ok y /\
    calls (snd (tvp_2d quiet_oracle 0%nat (SInt 1) (SInt 1) (SInt 2) (SInt 2) 1 0
                  st_axes))
    = calls st_axes ++ [mk_call DR2_TV args_m].
Proof.
  split; [reflexivity|]. split.
  - apply (proj1 (tvp_2d_contract quiet_oracle 0%nat (SInt 1) (SInt 1) (SInt 2)
                    (SFloat (fl 0)) 1 0 st_axes _ eq_refl)).
    right. right. right. reflexivity.
  - apply (proj2 (proj2 (proj2 (tvp_2d_contract quiet_oracle 0%nat (SInt 1) (SInt 1)
                                  (SInt 2) (SInt 2) 1 0 st_axes _ eq_refl)
                           eq_refl eq_refl eq_refl eq_refl)
                    float_ok_one float_ok_one float_ok_two float_ok_two)).
    cbn. lia.
Defined.

Lemma tv1w_2d_needs_matrix_witness :
  heap st_signal3 !! 0%nat = Some (vec [fl 1; fl 2; fl 3]) /\
  heap st_signal3 !! 1%nat = Some (vec [fl 1; fl 1]) /\
  all_ge0 (data (vec [fl 1; fl 1])) = true /\
  length (shape (vec [fl 1; fl 2; fl 3])) <> 2%nat /\
  tv1w_2d quiet_oracle 0%nat 1%nat 1%nat 0 1 st_signal3
  = (Raise ValueError, st_signal3).
Proof.
  split; [reflexivity|]. split; [reflexivity|]. split; [reflexivity|].
  split; [discriminate|].
  apply (tv1w_2d_needs_matrix quiet_oracle 0%nat 1%nat 1%nat 0 1 st_signal3
           _ _ _ eq_refl eq_refl eq_refl eq_refl eq_refl).
  discriminate.
Defined.

Lemma tvgen_contract_witness :
  heap st_axes !! 0%nat = Some mat22 /\
  heap st_axes !! 1%nat = Some (vec [fl 1; fl 1]) /\
  heap st_axes !! 2%nat = Some (vec [fl 1; fl 1]) /\
  tvgen quiet_oracle 0%nat (VArr 1%nat) [1; 2] (VArr 2%nat) 0 0 st_axes
  = (Raise AssertionError, st_axes) /\
  exists y args_m,
    fst (tvgen quiet_oracle 0%nat (VArr 1%nat) [1; 2] (VArr 2%nat) 1 0 st_axes)
    = Ok y /\
    calls (snd (tvgen quiet_oracle 0%nat (VArr 1%nat) [1; 2] (VArr 2%nat) 1 0
                  st_axes))
    = calls st_axes ++ [mk_call PD2_TV args_m].
Proof.
  split; [reflexivity|]. split; [reflexivity|]. split; [reflexivity|]. split.
  - apply (proj1 (tvgen_contract quiet_oracle 0%nat 1%nat [1; 2] 2%nat 0 0 st_axes
                    _ _ _ 2 [] 2 [] eq_refl eq_refl eq_refl eq_refl eq_refl)).
    right. right. left. lia.
  - apply (proj2 (proj2 (tvgen_contract quiet_oracle 0%nat 1%nat [1; 2] 2%nat 1 0
                           st_axes _ _ _ 2 [] 2 [] eq_refl eq_refl eq_refl eq_refl
                           eq_refl)
                    eq_refl eq_refl ltac:(lia) ltac:(lia))).
    discriminate.
Defined.

Lemma solver_gets_float64_buffers_witness :
  valid_refs (heap st_int3) tv2_call /\
  is_float64 {| shape := [3]; order := C_order; data := I64 [1; 2; 3] |} = false /\
  fst (run_entry quiet_oracle tv2_call st_int3) = Ok 3%nat /\
  exists fn args_m,
    calls (snd (run_entry quiet_oracle tv2_call st_int3))
    = calls st_int3 ++ [mk_call fn args_m]
    /\ float64_behind (heap (snd (run_entry quiet_oracle tv2_call st_int3))) args_m.
Proof.
  split; [exact valid_refs_int3|]. split; [reflexivity|]. split; [reflexivity|].
  apply (solver_gets_float64_buffers quiet_oracle tv2_call st_int3 3%nat
           valid_refs_int3 eq_refl).
Defined.

Lemma signal_passed_converted_witness :
  valid_refs (heap st_int3) tv2_call /\
  fst (run_entry quiet_oracle tv2_call st_int3) = Ok 3%nat /\
  exists args_m px axf,
    calls (snd (run_entry quiet_oracle tv2_call st_int3))
    = calls st_int3 ++ [mk_call morePG_TV2 args_m] /\
    args_m !! 0%nat = Some (CPtr px) /\
    heap (snd (run_entry quiet_oracle tv2_call st_int3)) !! px = Some axf /\
    shape axf = [3] /\
    data axf = F64 [fl 1; fl 2; fl 3] /\
    heap st_int3 !! px = None.
Proof.
  split; [exact valid_refs_int3|]. split; [reflexivity|].
  apply (signal_passed_converted quiet_oracle tv2_call st_int3 3%nat _
           valid_refs_int3 eq_refl (or_introl eq_refl) eq_refl).
Defined.

Lemma extents_told_to_solver_witness :
  valid_refs (heap st_signal3) tv2_call /\
  fst (run_entry quiet_oracle tv2_call st_signal3) = Ok 3%nat /\
  exists fn args_m ay,
    calls (snd (run_entry quiet_oracle tv2_call st_signal3))
    = calls st_signal3 ++ [mk_call fn args_m] /\
    told_extents fn args_m [3] /\
    heap (snd (run_entry quiet_oracle tv2_call st_signal3)) !! 3%nat = Some ay /\
    buffer_length (data ay) = 3%nat.
Proof.
  split; [exact valid_refs_signal3|]. split; [reflexivity|].
  apply (extents_told_to_solver quiet_oracle tv2_call st_signal3 3%nat _
           valid_refs_signal3 eq_refl (or_introl eq_refl) eq_refl).
Defined.

Lemma result_is_solver_ready_witness :
  valid_refs (heap st_signal3) tv2_call /\
  fst (run_entry quiet_oracle tv2_call st_signal3) = Ok 3%nat /\
  exists ay,
    heap (snd (run_entry quiet_oracle tv2_call st_signal3)) !! 3%nat = Some ay /\
    well_sized ay /\
    forall c', needs_no_copy c' ay = true.
Proof.
  split; [exact valid_refs_signal3|]. split; [reflexivity|].
  apply (result_is_solver_ready quiet_oracle tv2_call st_signal3 3%nat
           valid_refs_signal3 eq_refl).
Defined.

Lemma result_feeds_back_witness :
  valid_refs (heap st_signal3) tv2_call /\
  fst (run_entry quiet_oracle tv2_call st_signal3) = Ok 3%nat /\
  valid_refs (heap (snd (run_entry quiet_oracle tv2_call st_signal3)))
    (second_call 3%nat) /\
  fst (run_entry quiet_oracle (second_call 3%nat)
         (snd (run_entry quiet_oracle tv2_call st_signal3))) = Ok 6%nat /\
  exists args_m,
    calls (snd (run_entry quiet_oracle (second_call 3%nat)
                  (snd (run_entry quiet_oracle tv2_call st_signal3))))
    = calls (snd (run_entry quiet_oracle tv2_call st_signal3))
      ++ [mk_call more_TV2 args_m] /\
    args_m !! 0%nat = Some (CPtr 3%nat).
Proof.
  assert (Hv2 : valid_refs (heap (snd (run_entry quiet_oracle tv2_call st_signal3)))
                  (second_call 3%nat)).
  { repeat constructor. eexists. reflexivity. }
  split; [exact valid_refs_signal3|]. split; [reflexivity|].
  split; [exact Hv2|]. split; [reflexivity|].
  apply (result_feeds_back quiet_oracle tv2_call (second_call 3%nat) st_signal3
           3%nat 6%nat valid_refs_signal3 eq_refl eq_refl Hv2 eq_refl).
Defined.

Lemma status_code_ignored_witness :
  same_writes (oracle_status 0) (oracle_status 1) /\
  nr_status (oracle_status 0 more_TV2 [] []) <> nr_status (oracle_status 1 more_TV2 [] []) /\
  run_entry (oracle_status 0) tv2_call st_signal3
  = run_entry (oracle_status 1) tv2_call st_signal3.
Proof.
  assert (Hs : same_writes (oracle_status 0) (oracle_status 1)).
  { intros fn args h. split; reflexivity. }
  split; [exact Hs|]. split; [discriminate|].
  apply (status_code_ignored (oracle_status 0) (oracle_status 1) tv2_call
           st_signal3 Hs).
Defined.

Lemma failed_assertion_changes_nothing_witness :
  fst (run_entry quiet_oracle (Call_tv2_1d 0%nat (SInt (-1)) "ms") st_signal3)
  = Raise AssertionError /\
  snd (run_entry quiet_oracle (Call_tv2_1d 0%nat (SInt (-1)) "ms") st_signal3)
  = st_signal3.
Proof.
  split; [reflexivity|].
  apply (failed_assertion_changes_nothing quiet_oracle
           (Call_tv2_1d 0%nat (SInt (-1)) "ms") st_signal3 eq_refl).
Defined.

Lemma one_solver_call_per_run_witness :
  valid_refs (heap st_signal3) tv2_call /\
  exists args_m,
    new_calls st_signal3 (run_entry quiet_oracle tv2_call st_signal3)
    = [mk_call morePG_TV2 args_m].
Proof.
  split; [exact valid_refs_signal3|].
  apply (one_solver_call_per_run quiet_oracle tv2_call st_signal3 valid_refs_signal3).
Defined.

Lemma unused_tolerance_and_threads_witness :
  "condat" <> "pn" /\
  tv1_1d quiet_oracle 0%nat (SInt 1) (SFloat sigma_default) "condat" st_signal3
  = tv1_1d quiet_oracle 0%nat (SInt 1) (SInt 7) "condat" st_signal3.
Proof.
  split; [discriminate|].
  apply (proj1 (unused_tolerance_and_threads quiet_oracle 0%nat st_signal3)).
  discriminate.
Defined.

Lemma threads_and_cap_in_their_slots_witness :
  valid_refs (heap st_weighted) weighted_call /\
  fst (run_entry quiet_oracle weighted_call st_weighted) = Ok 3%nat /\
  threads_of weighted_call = Some 2 /\ cap_of weighted_call = Some 5 /\
  exists fn args_m,
    calls (snd (run_entry quiet_oracle weighted_call st_weighted))
    = calls st_weighted ++ [mk_call fn args_m] /\
    (forall i n, thread_slot fn = Some i -> threads_of weighted_call = Some n ->
       args_m !! i = Some (CNum (SInt n))) /\
    (forall i n, sig_maxit (lib_sig fn) = Some i -> cap_of weighted_call = Some n ->
       args_m !! i = Some (CNum (SInt n))).
Proof.
  split; [exact valid_refs_weighted|]. split; [reflexivity|].
  split; [reflexivity|]. split; [reflexivity|].
  apply (threads_and_cap_in_their_slots quiet_oracle weighted_call st_weighted
           3%nat valid_refs_weighted eq_refl).
Defined.

Lemma tvgen_describes_problem_witness :
  valid_refs (heap st_axes) axes_call /\
  shape mat22 <> [] /\
  fst (run_entry quiet_oracle axes_call st_axes) = Ok 4%nat /\
  exists fn args_m,
    calls (snd (tvgen quiet_oracle 0%nat (VArr 1%nat) [1; 2] (VArr 2%nat) 1 0 st_axes))
    = calls st_axes ++ [mk_call fn args_m] /\
    args_m !! 3%nat = Some (CSeq [SInt 1; SInt 2]) /\
    args_m !! 6%nat = Some (CSeq [SInt 2; SInt 2]) /\
    args_m !! 7%nat = Some (CNum (SInt 2)) /\
    args_m !! 8%nat = Some (CNum (SInt 2)).
Proof.
  split; [exact valid_refs_axes|]. split; [discriminate|].
  split; [reflexivity|].
  apply (tvgen_describes_problem quiet_oracle 0%nat (VArr 1%nat) [1; 2]
           (VArr 2%nat) 1 0 st_axes 4%nat mat22 valid_refs_axes eq_refl);
    [discriminate | reflexivity].
Defined.

Lemma exceptions_of_entry_points_witness :
  valid_refs (heap st_axes) lists_call /\
  fst (run_entry quiet_oracle lists_call st_axes) = Raise (AttributeError "dtype") /\
  AttributeError "dtype" ∈ may_raise lists_call.
Proof.
  assert (Hv : valid_refs (heap st_axes) lists_call).
  { repeat constructor. eexists. reflexivity. }
  split; [exact Hv|]. split; [reflexivity|].
  apply (exceptions_of_entry_points quiet_oracle lists_call st_axes _ Hv eq_refl).
Defined.

Lemma declared_but_never_called_witness :
  valid_refs (heap st_signal3) capped_call /\
  new_calls st_signal3 (run_entry quiet_oracle capped_call st_signal3) <> [] /\
  Forall (fun nc => nc_fn nc <> OGP_TVp /\ nc_fn nc <> FISTA_TVp)
    (new_calls st_signal3 (run_entry quiet_oracle capped_call st_signal3)).
Proof.
  assert (Hv : valid_refs (heap st_signal3) capped_call).
  { repeat constructor. eexists. reflexivity. }
  split; [exact Hv|]. split; [discriminate|].
  apply (declared_but_never_called quiet_oracle capped_call st_signal3 Hv).
Defined.

Lemma weight_arrays_passed_converted_witness :
  valid_refs (heap st_weighted) weighted_call /\
  fst (run_entry quiet_oracle weighted_call st_weighted) = Ok 3%nat /\
  (4%nat, 2%nat) ∈ array_args weighted_call /\
  exists args_m p' a',
    calls (snd (run_entry quiet_oracle weighted_call st_weighted))
    = calls st_weighted ++ [mk_call DR2L1W_TV args_m] /\
    args_m !! 4%nat = Some (CPtr p') /\
    heap (snd (run_entry quiet_oracle weighted_call st_weighted)) !! p' = Some a' /\
    shape a' = [2; 1] /\
    data a' = F64 [fl 1; fl 1] /\
    p' = 2%nat.
Proof.
  assert (Hin : (4%nat, 2%nat) ∈ array_args weighted_call).
  { cbn. apply elem_of_cons. right. apply elem_of_cons. left. reflexivity. }
  split; [exact valid_refs_weighted|]. split; [reflexivity|]. split; [exact Hin|].
  apply (weight_arrays_passed_converted quiet_oracle weighted_call st_weighted
           3%nat 4%nat 2%nat _ valid_refs_weighted eq_refl Hin eq_refl).
Defined.

Lemma solver_reads_column_major_witness :
  valid_refs (heap st_rows) rows_call /\
  well_sized mat22_rows /\ in_range (shape mat22_rows) [1; 0] /\
  entry_at mat22_rows [1; 0] = fl 3 /\
  fst (run_entry quiet_oracle rows_call st_rows) = Ok 3%nat /\
  exists args_m px axf l,
    calls (snd (run_entry quiet_oracle rows_call st_rows))
    = calls st_rows ++ [mk_call DR2_TV args_m] /\
    args_m !! 2%nat = Some (CPtr px) /\
    heap (snd (run_entry quiet_oracle rows_call st_rows)) !! px = Some axf /\
    data axf = F64 l /\
    nth 1 l F0 = fl 3.
Proof.
  assert (Hv : valid_refs (heap st_rows) rows_call).
  { repeat constructor. eexists. reflexivity. }
  assert (Hr : in_range (shape mat22_rows) [1; 0]).
  { repeat constructor; lia. }
  split; [exact Hv|]. split; [reflexivity|]. split; [exact Hr|].
  split; [reflexivity|]. split; [reflexivity|].
  apply (solver_reads_column_major quiet_oracle rows_call st_rows 3%nat mat22_rows
           [1; 0] Hv eq_refl eq_refl eq_refl Hr eq_refl).
Defined.

Lemma result_read_column_major_witness :
  valid_refs (heap st_rows) rows_call /\
  fst (run_entry quiet_oracle rows_call st_rows) = Ok 3%nat /\
  exists ay l,
    heap (snd (run_entry quiet_oracle rows_call st_rows)) !! 3%nat = Some ay /\
    data ay = F64 l /\
    forall idx, in_range (shape ay) idx ->
      entry_at ay idx = nth (Z.to_nat (ravel_F (shape ay) idx)) l F0.
Proof.
  assert (Hv : valid_refs (heap st_rows) rows_call).
  { repeat constructor. eexists. reflexivity. }
  split; [exact Hv|]. split; [reflexivity|].
  apply (result_read_column_major quiet_oracle rows_call st_rows 3%nat Hv eq_refl).
Defined.

Lemma zero_weight_keeps_every_entry_witness :
  call_ready (heap st_rows) (Call_tv1_2d 0%nat (SInt 0) 1 0 "pd") /\
  zero_weight (heap st_rows) (Call_tv1_2d 0%nat (SInt 0) 1 0 "pd") /\
  shape mat22_rows <> [] /\
  exists y ay,
    fst (run_entry quiet_oracle (Call_tv1_2d 0%nat (SInt 0) 1 0 "pd") st_rows)
    = Ok y /\
    heap (snd (run_entry quiet_oracle (Call_tv1_2d 0%nat (SInt 0) 1 0 "pd")
                 st_rows)) !! y = Some ay /\
    shape ay = shape mat22_rows /\
    forall idx, in_range (shape mat22_rows) idx ->
      entry_at ay idx = entry_at mat22_rows idx.
Proof.
  assert (Hr : call_ready (heap st_rows) (Call_tv1_2d 0%nat (SInt 0) 1 0 "pd")).
  { split; [|reflexivity]. exists mat22_rows. repeat split; reflexivity. }
  assert (Hz : zero_weight (heap st_rows) (Call_tv1_2d 0%nat (SInt 0) 1 0 "pd"))
    by reflexivity.
  split; [exact Hr|]. split; [exact Hz|]. split; [discriminate|].
  apply (zero_weight_keeps_every_entry quiet_oracle
           (Call_tv1_2d 0%nat (SInt 0) 1 0 "pd") st_rows mat22_rows Hr Hz eq_refl).
  discriminate.
Defined.
